(** * Coordination and locking utilities (cinder/coordination.py)

    A shallow embedding of [Coordinator] and of the [synchronized]
    decorator.  Python text strings are sequences of Unicode code points,
    byte strings are lists of bytes, configured durations are exact
    rationals, and every call into the coordination backend (tooz) is an
    event of a trace whose reply is supplied by the environment. *)

From Stdlib Require Import QArith Qminmax Lqa Ascii String.
From Stdlib.Strings Require Import Byte.
From stdpp Require Import gmap list.

Local Open Scope list_scope.

(** ** Strings, bytes and exceptions *)

(** A Python [str]: a list of code points. *)
Abbreviation str := (list N).

(** The code points of an ASCII literal of the development. *)
Definition ustr (s : string) : str :=
  map N_of_ascii (list_ascii_of_string s).

(** [c.encode('ascii')] on one code point. *)
Definition encode_char (c : N) : option byte :=
  if (c <? 128)%N then Byte.of_N c else None.

(** [s.encode('ascii')]: [None] stands for [UnicodeEncodeError]. *)
Fixpoint encode_ascii (s : str) : option (list byte) :=
  match s with
  | [] => Some []
  | c :: s' =>
      match encode_char c, encode_ascii s' with
      | Some b, Some bs => Some (b :: bs)
      | _, _ => None
      end
  end.

Definition is_ascii (s : str) : bool := forallb (fun c => (c <? 128)%N) s.

Inductive exn : Type :=
| LockCreationFailed (msg : str)
| LockAcquireFailed
| ToozError
| ToozConnectionError
| UnicodeEncodeError
| KeyError (key : str)
| IndexError
| AttributeError (name : str)
| TypeError
| ValueError
| OperationError (tag : str).

(** [isinstance(e, coordination.ToozError)]: the connection error and the
    lock acquisition failure are subclasses of the generic backend error. *)
Definition is_ToozError (e : exn) : bool :=
  match e with
  | ToozError | ToozConnectionError | LockAcquireFailed => true
  | _ => false
  end.

Definition is_ToozConnectionError (e : exn) : bool :=
  match e with
  | ToozConnectionError => true
  | _ => false
  end.

Inductive result (A : Type) : Type :=
| Ret (a : A)
| Raise (e : exn).
Arguments Ret {A} a.
Arguments Raise {A} e.

(** ** Configuration, backend handles and observable events *)

(** [CONF.coordination]. *)
Record config : Type := mkConfig {
  cfg_backend_url : str;
  cfg_heartbeat : Q;
  cfg_initial_reconnect_backoff : Q;
  cfg_max_reconnect_backoff : Q
}.

(** The object returned by [coordination.get_coordinator]. *)
Record handle : Type := mkHandle {
  h_member : list byte;
  requires_beating : bool
}.

(** A backend lock: the coordinator that issued it and its name. *)
Record lock : Type := mkLock {
  lock_via : handle;
  name : list byte
}.

(** The [blocking] argument of a lock: [True], [False] or a timeout. *)
Inductive blocking : Type :=
| Block
| NoBlock
| Timeout (secs : Q).

Inductive log_record : Type :=
| LogStartError
| LogStarted
| LogHeartbeatConnectionError
| LogHeartbeatError
| LogReconnecting
| LogReconnectFailed (attempt : positive) (backoff : Q)
| LogReconnected
| LogAcquired (name : list byte) (function : str) (wait_secs : Q)
| LogReleased (name : list byte) (function : str) (held_secs : option Q).

Inductive event : Type :=
| EvGetCoordinator (url : str) (member : list byte)
| EvBackendStart (h : handle)
| EvBackendStop (h : handle)
| EvBackendHeartbeat (h : handle)
| EvBackendGetLock (h : handle) (name : list byte)
| EvAcquire (l : lock) (b : blocking) (granted : bool)
| EvRelease (l : lock)
| EvCall (function : str)
| EvSpawnHeartbeat
| EvDeadWait (timeout : Q)
| EvLog (r : log_record).

(** ** The coordinator object *)

Inductive greenthread : Type := HeartbeatThread.

(** The attributes of [Coordinator].  [_dead] is the [threading.Event]:
    [None] before [start] creates one, then its flag. *)
Record Coordinator : Type := mkCoordinator {
  coordinator : option handle;
  agent_id : str;
  started : bool;
  prefix : str;
  _ev : option greenthread;
  _dead : option bool
}.

Definition set_coordinator (h : option handle) (c : Coordinator) : Coordinator :=
  mkCoordinator h (agent_id c) (started c) (prefix c) (_ev c) (_dead c).
Definition set_started (b : bool) (c : Coordinator) : Coordinator :=
  mkCoordinator (coordinator c) (agent_id c) b (prefix c) (_ev c) (_dead c).
Definition set_ev (t : option greenthread) (c : Coordinator) : Coordinator :=
  mkCoordinator (coordinator c) (agent_id c) (started c) (prefix c) t (_dead c).
Definition set_dead (d : option bool) (c : Coordinator) : Coordinator :=
  mkCoordinator (coordinator c) (agent_id c) (started c) (prefix c) (_ev c) d.

(** [Coordinator.__init__]: [agent_id or str(uuid.uuid4())]; an absent or
    empty agent id is replaced by the freshly drawn [uuid4]. *)
Definition Coordinator_init (agent : option str) (pfx : str) (uuid4 : str)
  : Coordinator :=
  mkCoordinator None
    (match agent with
     | Some (c :: a) => c :: a
     | _ => uuid4
     end)
    false pfx None None.

(** The module-level [COORDINATOR = Coordinator(prefix='cinder-')]. *)
Definition COORDINATOR (uuid4 : str) : Coordinator :=
  Coordinator_init None (ustr "cinder-") uuid4.

(** Modelled from the spec: the backend's [acquireNamedLock(name)], which
    tooz implements outside this repository; a healthy backend hands out a
    lock handle for exactly the requested name. *)
Definition backend_get_lock (h : handle) (name : list byte) : lock :=
  mkLock h name.

(** [Coordinator.get_lock]: the name is encoded first, the handle is
    tested afterwards. *)
Definition get_lock (c : Coordinator) (name : str)
  : result lock * list event :=
  match encode_ascii (prefix c ++ name) with
  | None => (Raise UnicodeEncodeError, [])
  | Some lock_name =>
      match coordinator c with
      | Some h => (Ret (backend_get_lock h lock_name),
                   [EvBackendGetLock h lock_name])
      | None => (Raise (LockCreationFailed (ustr "Coordinator uninitialized.")), [])
      end
  end.

(** ** Methods as state transformers

    A method of [Coordinator] reads and writes the object's attributes,
    may raise, and leaves a trace of backend calls and log records. *)

Definition M (A : Type) : Type :=
  Coordinator -> result A * Coordinator * list event.

Definition ret {A : Type} (a : A) : M A := fun c => (Ret a, c, []).

Definition raise {A : Type} (e : exn) : M A := fun c => (Raise e, c, []).

Definition bind {A B : Type} (m : M A) (k : A -> M B) : M B := fun c =>
  match m c with
  | (Ret a, c', t) =>
      match k a c' with
      | (r, c'', t') => (r, c'', t ++ t')
      end
  | (Raise e, c', t) => (Raise e, c', t)
  end.

(** [try: m except <class>: h]: [h] runs when [m] raises an exception of
    the class recognised by [catches]. *)
Definition try_except {A : Type} (m : M A) (catches : exn -> bool)
  (h : exn -> M A) : M A := fun c =>
  match m c with
  | (Raise e, c', t) =>
      if catches e
      then match h e c' with
           | (r, c'', t') => (r, c'', t ++ t')
           end
      else (Raise e, c', t)
  | r => r
  end.

Definition emit (e : event) : M unit := fun c => (Ret tt, c, [e]).
Definition read {A : Type} (f : Coordinator -> A) : M A :=
  fun c => (Ret (f c), c, []).
Definition write (f : Coordinator -> Coordinator) : M unit :=
  fun c => (Ret tt, f c, []).
Definition lift {A : Type} (r : result A) : M A := fun c => (r, c, []).

Notation "x <- m ;; k" := (bind m (fun x => k))
  (at level 100, m at next level, right associativity).
Notation "m ;;; k" := (bind m (fun _ => k))
  (at level 100, right associativity).

(** What the environment answers to the calls one step may make: the two
    halves of a connection ([get_coordinator], which yields the driver's
    [requires_beating] flag, and the handle's [start]), a heartbeat, a
    disconnection, and one draw of [random.random()]. *)
Record backend_reply : Type := mkReply {
  reply_get_coordinator : result bool;
  reply_start : result unit;
  reply_heartbeat : result unit;
  reply_stop : result unit;
  reply_random : Q
}.

(** [Coordinator._start]: the handle is stored before it is started. *)
Definition _start (conf : config) (env : backend_reply) : M unit :=
  pfx <- read prefix ;;
  agent <- read agent_id ;;
  match encode_ascii (pfx ++ agent) with
  | None => raise UnicodeEncodeError
  | Some member_id =>
      emit (EvGetCoordinator (cfg_backend_url conf) member_id) ;;;
      beating <- lift (reply_get_coordinator env) ;;
      let h := mkHandle member_id beating in
      write (set_coordinator (Some h)) ;;;
      emit (EvBackendStart h) ;;;
      lift (reply_start env)
  end.

(** [Coordinator.start]. *)
Definition start (conf : config) (env : backend_reply) : M unit :=
  is_started <- read started ;;
  if negb is_started then
    try_except
      (write (set_dead (Some false)) ;;;
       _start conf env ;;;
       write (set_started true) ;;;
       h <- read coordinator ;;
       match h with
       | Some h' =>
           if requires_beating h'
           then emit EvSpawnHeartbeat ;;; write (set_ev (Some HeartbeatThread))
           else ret tt
       | None => ret tt
       end)
      is_ToozError
      (fun e => emit (EvLog LogStartError) ;;; raise e) ;;;
    emit (EvLog LogStarted)
  else ret tt.

(** [Coordinator._heartbeat]: a connection error is logged and raised
    again, any other backend error is logged and answered by [False]. *)
Definition _heartbeat (env : backend_reply) : M bool :=
  try_except
    (try_except
       (h <- read coordinator ;;
        match h with
        | None => raise (AttributeError (ustr "heartbeat"))
        | Some h' =>
            emit (EvBackendHeartbeat h') ;;;
            lift (reply_heartbeat env) ;;;
            ret true
        end)
       is_ToozConnectionError
       (fun e => emit (EvLog LogHeartbeatConnectionError) ;;; raise e))
    (fun e => is_ToozError e && negb (is_ToozConnectionError e))
    (fun _ => emit (EvLog LogHeartbeatError) ;;; ret false).

(** ** The heartbeat loop and the reconnection procedure

    Both loops are run one step at a time, each step consuming one
    reply of the environment, so that they can be interleaved with the
    thread that calls [stop].  A step runs from one control point to the
    next: the test of the [while] condition, one call of [_heartbeat],
    one call of [_start], or one wait on [_dead].  Waiting takes no
    modelled time: a wait step may be taken whether the flag or the
    timeout ends it. *)

(** [random.uniform(a, b)] is [a + (b - a) * random()]. *)
Definition uniform (a b r : Q) : Q := a + (b - a) * r.

(** [self._dead.wait(timeout)]: returns the flag, whether the flag or the
    timeout ended the wait. *)
Definition dead_wait (timeout : Q) : M bool :=
  d <- read _dead ;;
  match d with
  | None => raise (AttributeError (ustr "wait"))
  | Some flag => emit (EvDeadWait timeout) ;;; ret flag
  end.

(** Control points of [_reconnect]: about to call [self._start()] in the
    given attempt, or waiting on [_dead] for the computed backoff. *)
Inductive reconnect_pc : Type :=
| RcConnect (attempt : positive) (backoff : Q)
| RcWait (attempt : positive) (backoff : Q).

Inductive reconnect_next : Type :=
| RcContinue (pc : reconnect_pc)
| RcReturn
| RcRaise (e : exn).

(** Entry of [_reconnect]: [backoff = base = initial_reconnect_backoff]
    and [itertools.count(1)]. *)
Definition _reconnect_entry (conf : config) : reconnect_pc :=
  RcConnect 1 (cfg_initial_reconnect_backoff conf).

(** One step of [Coordinator._reconnect].  The value of
    [self._dead.wait(backoff)] is discarded and the [for] loop goes on to
    its next attempt. *)
Definition _reconnect_step (conf : config) (env : backend_reply)
  (pc : reconnect_pc) (c : Coordinator)
  : reconnect_next * Coordinator * list event :=
  let cap := cfg_max_reconnect_backoff conf in
  let base := cfg_initial_reconnect_backoff conf in
  match pc with
  | RcConnect attempt backoff =>
      match _start conf env c with
      | (Ret _, c', t) => (RcReturn, c', t ++ [EvLog LogReconnected])
      | (Raise e, c', t) =>
          if is_ToozError e then
            let backoff' := Qmin cap (uniform base (backoff * 3) (reply_random env)) in
            (RcContinue (RcWait attempt backoff'), c',
             t ++ [EvLog (LogReconnectFailed attempt backoff')])
          else (RcRaise e, c', t)
      end
  | RcWait attempt backoff =>
      match dead_wait backoff c with
      | (Ret _, c', t) => (RcContinue (RcConnect (Pos.succ attempt) backoff), c', t)
      | (Raise e, c', t) => (RcRaise e, c', t)
      end
  end.

(** Why the [while] of [heartbeat] was left. *)
Inductive exit_reason : Type :=
| ByTeardown
| ByShutdown.

(** Control points of [heartbeat]. *)
Inductive loop_pc : Type :=
| AtTest
| AtHeartbeat
| AtSleep
| InReconnect (pc : reconnect_pc)
| Exited (why : exit_reason)
| Crashed (e : exn).

(** One step of [Coordinator.heartbeat]. *)
Definition heartbeat_step (conf : config) (env : backend_reply)
  (pc : loop_pc) (c : Coordinator) : loop_pc * Coordinator * list event :=
  match pc with
  | AtTest =>
      match coordinator c with
      | None => (Exited ByTeardown, c, [])
      | Some _ =>
          match _dead c with
          | None => (Crashed (AttributeError (ustr "is_set")), c, [])
          | Some true => (Exited ByShutdown, c, [])
          | Some false => (AtHeartbeat, c, [])
          end
      end
  | AtHeartbeat =>
      match _heartbeat env c with
      | (Ret _, c', t) => (AtSleep, c', t)
      | (Raise e, c', t) =>
          if is_ToozConnectionError e
          then (InReconnect (_reconnect_entry conf), c', t ++ [EvLog LogReconnecting])
          else (Crashed e, c', t)
      end
  | AtSleep =>
      match dead_wait (cfg_heartbeat conf) c with
      | (Ret _, c', t) => (AtTest, c', t)
      | (Raise e, c', t) => (Crashed e, c', t)
      end
  | InReconnect rpc =>
      match _reconnect_step conf env rpc c with
      | (RcContinue rpc', c', t) => (InReconnect rpc', c', t)
      | (RcReturn, c', t) => (AtTest, c', t)
      | (RcRaise e, c', t) => (Crashed e, c', t)
      end
  | Exited why => (Exited why, c, [])
  | Crashed e => (Crashed e, c, [])
  end.

(** ** [stop] and the two threads together *)

(** Control points of [Coordinator.stop], one per statement. *)
Inductive stop_pc : Type :=
| StopEntry
| StopBackendStopped
| StopDeadSet
| StopJoined
| StopEvCleared
| StopHandleCleared
| StopReturned
| StopRaised (e : exn).

(** [self._ev.wait()]: what joining the heartbeat thread yields, or
    [None] while that thread is still running. *)
Definition join (thread : option loop_pc) : option (result unit) :=
  match thread with
  | Some (Exited _) => Some (Ret tt)
  | Some (Crashed e) => Some (Raise e)
  | _ => None
  end.

(** One statement of [Coordinator.stop]; [None] when the statement is
    blocked. *)
Definition stop_step (env : backend_reply) (thread : option loop_pc)
  (pc : stop_pc) (c : Coordinator) : option (stop_pc * Coordinator * list event) :=
  match pc with
  | StopEntry =>
      if started c then
        match coordinator c with
        | None => Some (StopRaised (AttributeError (ustr "stop")), c, [])
        | Some h =>
            match reply_stop env with
            | Ret _ => Some (StopBackendStopped, c, [EvBackendStop h])
            | Raise e => Some (StopRaised e, c, [EvBackendStop h])
            end
        end
      else Some (StopReturned, c, [])
  | StopBackendStopped =>
      match _dead c with
      | None => Some (StopRaised (AttributeError (ustr "set")), c, [])
      | Some _ => Some (StopDeadSet, set_dead (Some true) c, [])
      end
  | StopDeadSet =>
      match _ev c with
      | None => Some (StopJoined, c, [])
      | Some _ =>
          match join thread with
          | Some (Ret _) => Some (StopJoined, c, [])
          | Some (Raise e) => Some (StopRaised e, c, [])
          | None => None
          end
      end
  | StopJoined => Some (StopEvCleared, set_ev None c, [])
  | StopEvCleared => Some (StopHandleCleared, set_coordinator None c, [])
  | StopHandleCleared => Some (StopReturned, set_started false c, [])
  | StopReturned => None
  | StopRaised _ => None
  end.

(** The coordinator object shared by the heartbeat thread (absent when
    none was spawned) and by the caller of [stop], with everything
    observed so far. *)
Record system : Type := mkSystem {
  sys_self : Coordinator;
  sys_loop : option loop_pc;
  sys_stop : stop_pc;
  sys_trace : list event
}.

Inductive action : Type :=
| LoopStep (env : backend_reply)
| StopStep (env : backend_reply).

Definition sys_step (conf : config) (a : action) (s : system) : option system :=
  match a with
  | LoopStep env =>
      match sys_loop s with
      | None => None
      | Some pc =>
          match heartbeat_step conf env pc (sys_self s) with
          | (pc', c', t) =>
              Some (mkSystem c' (Some pc') (sys_stop s) (sys_trace s ++ t))
          end
      end
  | StopStep env =>
      match stop_step env (sys_loop s) (sys_stop s) (sys_self s) with
      | Some (pc', c', t) =>
          Some (mkSystem c' (sys_loop s) pc' (sys_trace s ++ t))
      | None => None
      end
  end.

Fixpoint sys_run (conf : config) (acts : list action) (s : system)
  : option system :=
  match acts with
  | [] => Some s
  | a :: acts' =>
      match sys_step conf a s with
      | Some s' => sys_run conf acts' s'
      | None => None
      end
  end.

(** The system right after [start()] returned on a coordinator: the
    heartbeat thread exists exactly when [start] spawned it. *)
Definition boot (conf : config) (env : backend_reply) (c : Coordinator)
  : option system :=
  match start conf env c with
  | (Ret _, c', t) =>
      Some (mkSystem c'
              (match _ev c' with Some _ => Some AtTest | None => None end)
              StopEntry t)
  | (Raise _, _, _) => None
  end.

(** [stop()] run to completion by a single thread, the heartbeat thread
    being in the given state when it is joined. *)
Fixpoint stop_run (fuel : nat) (env : backend_reply) (thread : option loop_pc)
  (pc : stop_pc) (c : Coordinator) (t : list event)
  : stop_pc * Coordinator * list event :=
  match fuel with
  | O => (pc, c, t)
  | S fuel' =>
      match stop_step env thread pc c with
      | Some (pc', c', t') => stop_run fuel' env thread pc' c' (t ++ t')
      | None => (pc, c, t)
      end
  end.

Definition stop (env : backend_reply) (thread : option loop_pc)
  (c : Coordinator) : stop_pc * Coordinator * list event :=
  stop_run 6 env thread StopEntry c [].

(** ** Python objects, [str.format] and [inspect.getcallargs] *)

#[global] Instance result_ret : MRet result := fun _ a => Ret a.
#[global] Instance result_bind : MBind result := fun _ _ k m =>
  match m with
  | Ret a => k a
  | Raise e => Raise e
  end.

(** What the wrapper needs of the values that flow through a call: the
    [str], [tuple] and [dict] objects it builds itself, and the four
    operations [str.format] performs on a field's value. *)
Class PyObject (value : Type) : Type := {
  py_str : str -> value;
  py_tuple : list value -> value;
  py_dict : gmap str value -> value;
  py_getattr : value -> str -> result value;
  py_getitem : value -> str -> result value;
  py_convert : value -> N -> result value;
  py_format : value -> str -> result str
}.

Definition ch (a : ascii) : N := N_of_ascii a.

Definition is_char (a : ascii) (c : N) : bool := (c =? ch a)%N.

Definition is_digit (c : N) : bool := (48 <=? c)%N && (c <=? 57)%N.

(** One accessor of a replacement field: an attribute name after a dot
    or an item key between square brackets. *)
Inductive accessor : Type :=
| Attr (name : str)
| Item (key : str).

(** The accessors after a field's first name, read left to right;
    [PathBad] is the point where the parser raises [ValueError]. *)
Inductive path : Type :=
| PathEnd
| PathStep (a : accessor) (rest : path)
| PathBad.

(** A format string read left to right: literal characters and
    replacement fields (name, conversion, format specification); [TBad] is
    the point where the parser raises [ValueError]. *)
Inductive template : Type :=
| TEnd
| TLit (c : N) (rest : template)
| TField (field_name : str) (conversion : option N) (format_spec : str)
    (rest : template)
| TBad.

Inductive parse_mode : Type :=
| MText
| MName (name_rev : str) (in_bracket : bool)
| MConv (name : str)
| MConvEnd (name : str) (conv : N)
| MSpec (name : str) (conv : option N) (spec_rev : str) (depth : nat).

(** The markup iterator of [str.format]. *)
Fixpoint parse_template (m : parse_mode) (s : str) : template :=
  match s with
  | [] => match m with MText => TEnd | _ => TBad end
  | c :: s' =>
      match m with
      | MText =>
          if is_char "{" c then
            match s' with
            | [] => TBad
            | c' :: s'' =>
                if is_char "{" c' then TLit c (parse_template MText s'')
                else parse_template (MName [] false) s'
            end
          else if is_char "}" c then
            match s' with
            | [] => TBad
            | c' :: s'' =>
                if is_char "}" c' then TLit c (parse_template MText s'')
                else TBad
            end
          else TLit c (parse_template MText s')
      | MName name_rev true =>
          parse_template (MName (c :: name_rev) (negb (is_char "]" c))) s'
      | MName name_rev false =>
          if is_char "{" c then TBad
          else if is_char "[" c then parse_template (MName (c :: name_rev) true) s'
          else if is_char "}" c then
            TField (rev name_rev) None [] (parse_template MText s')
          else if is_char ":" c then
            parse_template (MSpec (rev name_rev) None [] 0) s'
          else if is_char "!" c then parse_template (MConv (rev name_rev)) s'
          else parse_template (MName (c :: name_rev) false) s'
      | MConv name => parse_template (MConvEnd name c) s'
      | MConvEnd name conv =>
          if is_char "}" c then TField name (Some conv) [] (parse_template MText s')
          else if is_char ":" c then parse_template (MSpec name (Some conv) [] 0) s'
          else TBad
      | MSpec name conv spec_rev depth =>
          if is_char "{" c then
            parse_template (MSpec name conv (c :: spec_rev) (S depth)) s'
          else if is_char "}" c then
            match depth with
            | O => TField name conv (rev spec_rev) (parse_template MText s')
            | S depth' => parse_template (MSpec name conv (c :: spec_rev) depth') s'
            end
          else parse_template (MSpec name conv (c :: spec_rev) depth) s'
      end
  end.

(** The first name of a field: everything before the first dot or
    opening square bracket. *)
Fixpoint split_first (s : str) : str * str :=
  match s with
  | [] => ([], [])
  | c :: s' =>
      if is_char "." c || is_char "[" c then ([], s)
      else match split_first s' with
           | (first, rest) => (c :: first, rest)
           end
  end.

Inductive path_mode : Type :=
| PNext
| PAttrName (acc_rev : str)
| PItemKey (acc_rev : str).

Definition path_step (a : str -> accessor) (acc_rev : str) (rest : path) : path :=
  match acc_rev with
  | [] => PathBad
  | _ => PathStep (a (rev acc_rev)) rest
  end.

(** The field-name iterator of [str.format]. *)
Fixpoint parse_path (m : path_mode) (s : str) : path :=
  match s with
  | [] =>
      match m with
      | PNext => PathEnd
      | PAttrName acc_rev => path_step Attr acc_rev PathEnd
      | PItemKey _ => PathBad
      end
  | c :: s' =>
      match m with
      | PNext =>
          if is_char "." c then parse_path (PAttrName []) s'
          else if is_char "[" c then parse_path (PItemKey []) s'
          else PathBad
      | PAttrName acc_rev =>
          if is_char "." c then
            path_step Attr acc_rev (parse_path (PAttrName []) s')
          else if is_char "[" c then
            path_step Attr acc_rev (parse_path (PItemKey []) s')
          else parse_path (PAttrName (c :: acc_rev)) s'
      | PItemKey acc_rev =>
          if is_char "]" c then path_step Item acc_rev (parse_path PNext s')
          else parse_path (PItemKey (c :: acc_rev)) s'
      end
  end.

Section Format.
Context {value : Type} `{PyObject value}.

Fixpoint follow (p : path) (obj : value) : result value :=
  match p with
  | PathEnd => Ret obj
  | PathStep (Attr name) rest => obj' ← py_getattr obj name; follow rest obj'
  | PathStep (Item key) rest => obj' ← py_getitem obj key; follow rest obj'
  | PathBad => Raise ValueError
  end.

(** The object a field names.  [format] is called with keyword
    arguments only, so an empty or numeric first name indexes an
    empty tuple. *)
Definition get_field (kwargs : gmap str value) (field_name : str)
  : result value :=
  match split_first field_name with
  | (first, rest) =>
      if forallb is_digit first then Raise IndexError
      else match kwargs !! first with
           | None => Raise (KeyError first)
           | Some obj => follow (parse_path PNext rest) obj
           end
  end.

Definition needs_expanding (spec : str) : bool := existsb (is_char "{") spec.

Fixpoint render (expand : str -> result str) (kwargs : gmap str value)
  (t : template) : result str :=
  match t with
  | TEnd => Ret []
  | TLit c rest => out ← render expand kwargs rest; Ret (c :: out)
  | TField field_name conversion format_spec rest =>
      obj ← get_field kwargs field_name;
      obj' ← match conversion with
             | None => Ret obj
             | Some conv => py_convert obj conv
             end;
      spec ← (if needs_expanding format_spec then expand format_spec
              else Ret format_spec);
      text ← py_format obj' spec;
      out ← render expand kwargs rest;
      Ret (text ++ out)
  | TBad => Raise ValueError
  end.

(** [str.format] on [s] with keyword arguments [kwargs] and the given
    recursion depth left. *)
Fixpoint build_string (depth : nat) (kwargs : gmap str value) (s : str)
  : result str :=
  match depth with
  | O => Raise ValueError
  | S depth' =>
      render (build_string depth' kwargs) kwargs (parse_template MText s)
  end.

Definition format (s : str) (kwargs : gmap str value) : result str :=
  build_string 2 kwargs s.

(** The argument specification of a function: its named parameters,
    the names of [*args] and [**kwargs] when present, and the default
    values of its last parameters. *)
Record signature : Type := mkSignature {
  sig_args : list str;
  sig_varargs : option str;
  sig_varkw : option str;
  sig_defaults : list value
}.

(** Keywords that name a parameter are bound to it. *)
Fixpoint bind_named (args : list str) (st : gmap str value * gmap str value)
  : result (gmap str value * gmap str value) :=
  match args with
  | [] => Ret st
  | arg :: args' =>
      match snd st !! arg with
      | None => bind_named args' st
      | Some v =>
          match fst st !! arg with
          | Some _ => Raise TypeError
          | None => bind_named args' (<[arg := v]> (fst st), delete arg (snd st))
          end
      end
  end.

Fixpoint bind_defaults (l : list (str * value)) (m : gmap str value)
  : gmap str value :=
  match l with
  | [] => m
  | (arg, v) :: l' =>
      bind_defaults l'
        (match m !! arg with
         | Some _ => m
         | None => <[arg := v]> m
         end)
  end.

(** [inspect.getcallargs] for a function of signature [sg] called with
    the given positional and keyword arguments; every binding error is
    a [TypeError]. *)
Definition getcallargs (sg : signature) (positional : list value)
  (named : gmap str value) : result (gmap str value) :=
  let args := sig_args sg in
  let num_pos := length positional in
  let num_args := length args in
  let arg2value : gmap str value := list_to_map (zip args positional) in
  arg2value ←
    match sig_varargs sg with
    | Some varargs =>
        Ret (<[varargs := py_tuple (drop num_args positional)]> arg2value)
    | None =>
        if Nat.ltb num_args num_pos then Raise TypeError
        else if Nat.eqb num_args 0 && negb (bool_decide (named = ∅))
                && negb (bool_decide (is_Some (sig_varkw sg)))
        then Raise TypeError
        else Ret arg2value
    end;
  st ← bind_named args (arg2value, named);
  let arg2value :=
    bind_defaults
      (zip (drop (num_args - length (sig_defaults sg)) args) (sig_defaults sg))
      (fst st) in
  arg2value ←
    match sig_varkw sg with
    | Some varkw => Ret (<[varkw := py_dict (snd st)]> arg2value)
    | None =>
        if bool_decide (snd st = ∅) then Ret arg2value else Raise TypeError
    end;
  if forallb (fun arg => bool_decide (is_Some (arg2value !! arg))) args
  then Ret arg2value
  else Raise TypeError.

End Format.

(** ** The [synchronized] decorator *)

(** Computations of the wrapper: a result or an exception, with the
    events left behind. *)
Definition W (A : Type) : Type := (result A * list event)%type.

Definition wbind {A B : Type} (m : W A) (k : A -> W B) : W B :=
  match m with
  | (Ret a, t) => match k a with (r, t') => (r, t ++ t') end
  | (Raise e, t) => (Raise e, t)
  end.

(** Modelled from the spec: the scoped acquisition of the backend's
    [LockHandle] (tooz's lock used as a context manager, which is not
    part of this repository).  Entering asks the backend to acquire under
    the blocking policy and fails with [LockAcquireFailed] when the lock
    is not granted. *)
Definition lock_enter (l : lock) (b : blocking) (granted : bool) : W unit :=
  (if granted then Ret tt else Raise LockAcquireFailed, [EvAcquire l b granted]).

(** Modelled from the spec: leaving the scope releases the lock and never
    suppresses the failure of the body. *)
Definition lock_exit (l : lock) : list event := [EvRelease l].

(** [with l(b): body]: the body runs only once the scope is entered, and
    the scope is left whether the body returns or raises. *)
Definition with_lock {A : Type} (l : lock) (b : blocking) (granted : bool)
  (body : W A) : W A :=
  wbind (lock_enter l b granted)
        (fun _ => match body with (r, t) => (r, t ++ lock_exit l) end).

(** What the environment answers during one guarded call: whether the
    backend grants the lock, and the three readings of [timeutils.now()]. *)
Record call_env : Type := mkCallEnv {
  granted : bool;
  now1 : Q;
  now2 : Q;
  now3 : Q
}.

Section Synchronized.
Context {value : Type} `{PyObject value}.

(** A wrapped operation [f]: its [__name__], its signature and what
    calling it yields. *)
Record operation : Type := mkOperation {
  op_name : str;
  op_signature : signature (value := value);
  op_body : list value -> gmap str value -> result value
}.

(** The inner [_synchronized(f, *a, **k)] of [synchronized(lock_name,
    blocking, coordinator)].  [t2] is [Some] once the lock is acquired;
    the [finally] block logs the release record in every case. *)
Definition _synchronized (lock_name : str) (blocking_ : blocking)
  (coordinator_ : Coordinator) (env : call_env)
  (f : operation) (a : list value) (k : gmap str value) : W value :=
  match getcallargs (op_signature f) a k with
  | Raise e => (Raise e, [])
  | Ret call_args =>
      let call_args := <[ustr "f_name" := py_str (op_name f)]> call_args in
      match format lock_name call_args with
      | Raise e => (Raise e, [])
      | Ret resolved =>
          wbind (get_lock coordinator_ resolved) (fun lock_ =>
            let t1 := now1 env in
            let t2 := if granted env then Some (now2 env) else None in
            let t3 := now3 env in
            match
              with_lock lock_ blocking_ (granted env)
                (op_body f a k,
                 [EvLog (LogAcquired (name lock_) (op_name f)
                           (now2 env - t1)%Q);
                  EvCall (op_name f)])
            with
            | (r, t) =>
                (r, t ++ [EvLog (LogReleased (name lock_) (op_name f)
                                   (option_map (fun t2 => (t3 - t2)%Q) t2))])
            end)
      end
  end.


End Synchronized.

(** ** A small object model for the examples

    An object is what [str.format] can observe of it: its [str()] and
    [repr()] texts, its attributes and its items. *)

#[warnings="-register-all"]
Inductive obj : Type :=
| Obj (text : str) (repr : str) (attrs : list (str * obj)) (items : list (str * obj)).

Definition obj_text (o : obj) : str := match o with Obj t _ _ _ => t end.
Definition obj_repr (o : obj) : str := match o with Obj _ r _ _ => r end.
Definition obj_attrs (o : obj) : list (str * obj) := match o with Obj _ _ a _ => a end.
Definition obj_items (o : obj) : list (str * obj) := match o with Obj _ _ _ i => i end.

Fixpoint assoc (k : str) (l : list (str * obj)) : option obj :=
  match l with
  | [] => None
  | (k', v) :: l' => if bool_decide (k = k') then Some v else assoc k l'
  end.

Definition obj_str (s : str) : obj :=
  Obj s (ch "'" :: s ++ [ch "'"]) [] [].

#[global] Instance obj_PyObject : PyObject obj := {
  py_str := obj_str;
  py_tuple := fun l => Obj (ustr "(...)") (ustr "(...)") [] [];
  py_dict := fun m => Obj (ustr "{...}") (ustr "{...}") [] (map_to_list m);
  py_getattr := fun o a =>
    match assoc a (obj_attrs o) with
    | Some v => Ret v
    | None => Raise (AttributeError a)
    end;
  py_getitem := fun o k =>
    match assoc k (obj_items o) with
    | Some v => Ret v
    | None => Raise (KeyError k)
    end;
  py_convert := fun o conv =>
    if is_char "s" conv then Ret (obj_str (obj_text o))
    else if is_char "r" conv then Ret (obj_str (obj_repr o))
    else Raise ValueError;
  py_format := fun o spec =>
    match spec with
    | [] => Ret (obj_text o)
    | _ => Raise TypeError
    end
}.

(** ** Properties stated about the model *)



(** The connection attempt obtains a handle whose [start] then fails. *)
Definition handle_start_fails (env : backend_reply) : bool :=
  match reply_get_coordinator env, reply_start env with
  | Ret _, Raise _ => true
  | _, _ => false
  end.

(** A reply that fails does so with a backend error, as the backend's
    interface promises. *)
Definition tooz_only {A : Type} (r : result A) : bool :=
  match r with
  | Ret _ => true
  | Raise e => is_ToozError e
  end.

Definition conformant (env : backend_reply) : bool :=
  tooz_only (reply_get_coordinator env) && tooz_only (reply_start env)
  && tooz_only (reply_heartbeat env).

Definition action_env (a : action) : backend_reply :=
  match a with
  | LoopStep env => env
  | StopStep env => env
  end.


(** [heartbeat()] run by a single thread over the given replies. *)
Fixpoint heartbeat_run (conf : config) (envs : list backend_reply)
  (pc : loop_pc) (c : Coordinator) (t : list event)
  : loop_pc * Coordinator * list event :=
  match envs with
  | [] => (pc, c, t)
  | env :: envs' =>
      match heartbeat_step conf env pc c with
      | (pc', c', t') => heartbeat_run conf envs' pc' c' (t ++ t')
      end
  end.


(** The heartbeat thread has returned from [heartbeat()]. *)
Definition loop_finished (thread : option loop_pc) : bool :=
  match thread with
  | None | Some (Exited _) => true
  | _ => false
  end.

Definition is_heartbeat (e : event) : bool :=
  match e with
  | EvBackendHeartbeat _ => true
  | _ => false
  end.

Definition is_connect (e : event) : bool :=
  match e with
  | EvGetCoordinator _ _ => true
  | _ => false
  end.

Definition is_call (e : event) : bool :=
  match e with
  | EvCall _ => true
  | _ => false
  end.

(** What holds of the two threads from [start()] on, whatever the
    backend answers: [stop] has not passed its join while the heartbeat
    thread runs, the handle is cleared only past the join, and the thread
    left its loop only on the shutdown flag. *)
Definition stop_inv (s : system) : Prop :=
  let c := sys_self s in
  (sys_stop s = StopEntry -> started c = true)
  /\ (match sys_stop s with
      | StopHandleCleared | StopReturned => True
      | _ => coordinator c <> None
      end)
  /\ (match sys_stop s with
      | StopEntry | StopBackendStopped | StopDeadSet | StopRaised _ =>
          sys_loop s <> None -> _ev c <> None
      | _ => loop_finished (sys_loop s) = true
      end)
  /\ (match sys_loop s with
      | Some (Exited ByShutdown) => _dead c = Some true
      | Some (Exited ByTeardown) => False
      | _ => True
      end).

(** What holds in addition as long as the backend keeps to its
    interface: the heartbeat thread has not died of an exception. *)
Definition loop_healthy (s : system) : Prop :=
  let c := sys_self s in
  encode_ascii (prefix c ++ agent_id c) <> None
  /\ _dead c <> None
  /\ (match sys_loop s with
      | Some (Crashed _) => False
      | _ => True
      end).

Definition is_lock_request (e : event) : bool :=
  match e with
  | EvBackendGetLock _ _ => true
  | _ => false
  end.

(** Only [_start] writes an attribute, and what it writes is a handle. *)
Definition same_or_new_handle (c c' : Coordinator) : Prop :=
  c' = c \/ exists h, c' = set_coordinator (Some h) c.

(** The coordinator a method leaves behind. *)
Definition state_of {A B : Type} (x : A * Coordinator * B) : Coordinator :=
  snd (fst x).



(** ** Observations on traces *)

Definition count_heartbeats (t : list event) : nat :=
  length (List.filter is_heartbeat t).



(** The timeouts of the waits on [_dead] in a trace, in order. *)
Fixpoint waits (t : list event) : list Q :=
  match t with
  | [] => []
  | EvDeadWait timeout :: t' => timeout :: waits t'
  | _ :: t' => waits t'
  end.

(** The member identifier a backend call is made under, for the calls
    that carry one. *)
Definition event_member (e : event) : option (list byte) :=
  match e with
  | EvGetCoordinator _ member => Some member
  | EvBackendStart h => Some (h_member h)
  | EvBackendStop h => Some (h_member h)
  | EvBackendHeartbeat h => Some (h_member h)
  | EvBackendGetLock h _ => Some (h_member h)
  | _ => None
  end.

Definition member_is (m : list byte) (e : event) : Prop :=
  match event_member e with
  | Some m' => m' = m
  | None => True
  end.

(** The string holds a brace, that is, some markup of [str.format]. *)
Definition has_brace (s : str) : bool :=
  existsb (fun c => is_char "{" c || is_char "}" c) s.




(** Three replies per cycle of the heartbeat loop: for the test, the
    heartbeat and the wait. *)
Fixpoint cycle_replies (envs : list backend_reply) : list backend_reply :=
  match envs with
  | [] => []
  | env :: envs' => env :: env :: env :: cycle_replies envs'
  end.

(** The heartbeat succeeds, or fails with a backend error that is not a
    connection error. *)
Definition heartbeat_survivable (env : backend_reply) : bool :=
  match reply_heartbeat env with
  | Ret _ => true
  | Raise e => is_ToozError e && negb (is_ToozConnectionError e)
  end.

(** One more heartbeat is due: the thread is about to send it. *)
Definition heartbeat_due (thread : option loop_pc) : nat :=
  match thread with
  | Some AtHeartbeat => 1
  | _ => 0
  end.


(** ** Concrete inputs used to exercise the theorems *)

Definition example_conf : config :=
  mkConfig (ustr "file:///var/lib/cinder") 1 (1 # 10) 60.

(** The backend is up. *)
Definition reply_ok : backend_reply :=
  mkReply (Ret true) (Ret tt) (Ret tt) (Ret tt) (1 # 2).

(** The backend is unreachable. *)
Definition reply_down : backend_reply :=
  mkReply (Raise ToozError) (Ret tt) (Raise ToozConnectionError) (Ret tt) (1 # 2).

(** The backend is reachable but refuses the request. *)
Definition reply_refused : backend_reply :=
  mkReply (Ret true) (Raise ToozError) (Raise ToozError) (Ret tt) (1 # 2).

Definition example_coordinator : Coordinator := COORDINATOR (ustr "agent-1").

(** The global coordinator after a successful [start()]. *)
Definition example_system : system :=
  match boot example_conf reply_ok example_coordinator with
  | Some s => s
  | None => mkSystem example_coordinator None StopEntry []
  end.

(** A life of the two threads: two heartbeats, the second refused, a lost
    connection and a failed reconnection, then [stop()] up to its join,
    the reconnection that succeeds, the exit of the loop and the rest of
    [stop()]. *)
Definition example_life : list action :=
  [LoopStep reply_ok; LoopStep reply_ok; LoopStep reply_ok;
   LoopStep reply_ok; LoopStep reply_refused; LoopStep reply_ok;
   LoopStep reply_ok; LoopStep reply_down; LoopStep reply_down;
   StopStep reply_ok; StopStep reply_ok;
   LoopStep reply_ok; LoopStep reply_ok; LoopStep reply_ok;
   StopStep reply_ok; StopStep reply_ok; StopStep reply_ok; StopStep reply_ok].

Definition example_stopped : system :=
  match sys_run example_conf example_life example_system with
  | Some s => s
  | None => example_system
  end.

Definition example_handle : handle :=
  match coordinator (sys_self example_system) with
  | Some h => h
  | None => mkHandle [] false
  end.

(** The connection is lost, the first reconnection attempt fails, and
    [stop()] sets the shutdown flag during the backoff wait. *)
Definition example_shutdown_during_backoff : list action :=
  [LoopStep reply_ok; LoopStep reply_down; LoopStep reply_down;
   StopStep reply_ok; StopStep reply_ok].

Definition example_waiting : system :=
  match sys_run example_conf example_shutdown_during_backoff example_system with
  | Some s => s
  | None => example_system
  end.

Definition example_member : list byte :=
  match encode_ascii (ustr "cinder-agent-1") with
  | Some m => m
  | None => []
  end.

(** The backoff computed by the first failed attempt of the examples. *)
Definition example_backoff : Q :=
  Qmin (cfg_max_reconnect_backoff example_conf)
    (uniform (cfg_initial_reconnect_backoff example_conf)
       (cfg_initial_reconnect_backoff example_conf * 3) (reply_random reply_down)).

(** Two operations on a volume and a snapshot: [foo] returns, [bar]
    raises. *)
Definition example_self : obj := Obj (ustr "<Manager>") (ustr "<Manager>") [] [].
Definition example_vol : obj :=
  Obj (ustr "<Volume>") (ustr "<Volume>") [(ustr "id", obj_str (ustr "v-17"))] [].
Definition example_snap : obj :=
  Obj (ustr "{...}") (ustr "{...}") [] [(ustr "name", obj_str (ustr "s1"))].

Definition example_signature : signature (value := obj) :=
  mkSignature [ustr "self"; ustr "vol"; ustr "snap"] None None [].

Definition foo : operation :=
  mkOperation (ustr "foo") example_signature
    (fun _ _ => Ret (obj_str (ustr "done"))).

Definition bar : operation :=
  mkOperation (ustr "bar") example_signature
    (fun _ _ => Raise (OperationError (ustr "boom"))).

Definition example_lock_of (resolved : string) : lock :=
  mkLock example_handle
    (match encode_ascii (ustr resolved) with Some n => n | None => [] end).

(** [foo(self, vol, snap)] under the docstring's template, lock granted. *)
Definition example_call_foo : W obj :=
  _synchronized (ustr "{f_name}-{vol.id}-{snap[name]}") Block
    (sys_self example_system) (mkCallEnv true 10 11 15)
    foo [example_self; example_vol; example_snap] ∅.

(** [bar(self, vol, snap=snap)], which raises, lock granted. *)
Definition example_call_bar : W obj :=
  _synchronized (ustr "{f_name}-{vol.id}-{snap[name]}") (Timeout 5)
    (sys_self example_system) (mkCallEnv true 10 11 15)
    bar [example_self; example_vol] (<[ustr "snap" := example_snap]> ∅).

(** [foo] again, fail-immediately policy, lock held elsewhere. *)
Definition example_call_denied : W obj :=
  _synchronized (ustr "{f_name}-{vol.id}-{snap[name]}") NoBlock
    (sys_self example_system) (mkCallEnv false 10 11 15)
    foo [example_self; example_vol; example_snap] ∅.



(** The backend is up and does not ask for heartbeats. *)
Definition reply_no_beating : backend_reply :=
  mkReply (Ret false) (Ret tt) (Ret tt) (Ret tt) 0.

(** [stop()] sets the shutdown flag just before a heartbeat is sent. *)
Definition example_flagged : system :=
  match sys_run example_conf [LoopStep reply_ok; StopStep reply_ok; StopStep reply_ok]
          example_system with
  | Some s => s
  | None => example_system
  end.

Definition example_quiet : system :=
  match sys_run example_conf
          [LoopStep reply_ok; LoopStep reply_ok; LoopStep reply_ok; LoopStep reply_ok]
          example_flagged with
  | Some s => s
  | None => example_flagged
  end.

(** * Theorems *)

(** ** Encoding *)

Lemma encode_char_ascii (c : N) :
  (c <? 128)%N = true -> exists b, encode_char c = Some b.
Proof.
  intros Hc. unfold encode_char. rewrite Hc.
  destruct (Byte.of_N c) as [b|] eqn:E; [eauto|].
  apply Byte.of_N_None_iff in E. apply N.ltb_lt in Hc. lia.
Qed.

Lemma encode_ascii_some (s : str) :
  is_ascii s = true -> exists bs, encode_ascii s = Some bs.
Proof.
  induction s as [|c s IH]; simpl; [eauto|].
  intros Hs. apply andb_true_iff in Hs as [Hc Hs].
  destruct (encode_char_ascii c Hc) as [b ->].
  destruct (IH Hs) as [bs ->]. eauto.
Qed.

Lemma encode_ascii_none (s : str) (c : N) :
  In c s -> (128 <= c)%N -> encode_ascii s = None.
Proof.
  induction s as [|c' s IH]; simpl; [tauto|].
  intros [->|Hin] Hc.
  - unfold encode_char.
    destruct (c <? 128)%N eqn:E; [apply N.ltb_lt in E; lia|]. reflexivity.
  - rewrite (IH Hin Hc). destruct (encode_char c'); reflexivity.
Qed.

(** ** [get_lock] *)

(** C3, as amended: for every lock name whose prefixed form is ASCII,
    [get_lock] on a coordinator without a backend handle fails with
    [LockCreationFailed], and on a coordinator with a handle it returns
    the lock the backend hands out for the encoded prefixed name, which is
    the one lock requested. *)
Theorem get_lock_ascii (c : Coordinator) (name : str) :
  is_ascii (prefix c ++ name) = true ->
  exists lock_name,
    encode_ascii (prefix c ++ name) = Some lock_name
    /\ (coordinator c = None ->
        exists msg, get_lock c name = (Raise (LockCreationFailed msg), []))
    /\ (forall h, coordinator c = Some h ->
        get_lock c name =
          (Ret (backend_get_lock h lock_name), [EvBackendGetLock h lock_name])).
Proof.
  intros Hascii.
  destruct (encode_ascii_some _ Hascii) as [bs Hbs].
  exists bs. split; [exact Hbs|]. unfold get_lock. rewrite Hbs. split.
  - intros ->. eauto.
  - intros h ->. reflexivity.
Qed.

Lemma get_lock_ascii_witness :
  let c := COORDINATOR (ustr "a1") in
  exists lock_name,
    encode_ascii (prefix c ++ ustr "x") = Some lock_name
    /\ (coordinator c = None ->
        exists msg, get_lock c (ustr "x") = (Raise (LockCreationFailed msg), []))
    /\ (forall h, coordinator c = Some h ->
        get_lock c (ustr "x") =
          (Ret (backend_get_lock h lock_name), [EvBackendGetLock h lock_name])).
Proof.
  intros c. apply (get_lock_ascii c (ustr "x")). reflexivity.
Defined.

(** C3 as stated fails: on a disconnected coordinator, a lock name with
    the code point 233 makes [get_lock] raise [UnicodeEncodeError], not
    [LockCreationFailed]. *)
Lemma get_lock_disconnected_non_ascii :
  let c := COORDINATOR (ustr "a1") in
  coordinator c = None
  /\ get_lock c [233%N] = (Raise UnicodeEncodeError, [])
  /\ ~ (exists msg, fst (get_lock c [233%N]) = Raise (LockCreationFailed msg)).
Proof.
  intros c. split; [reflexivity|]. split; [reflexivity|].
  intros [msg Hmsg]. vm_compute in Hmsg. discriminate Hmsg.
Qed.

(** C10: when the prefix followed by the lock name contains a code point
    outside the ASCII range, [get_lock] raises [UnicodeEncodeError],
    whether or not a backend handle is held, and requests no lock. *)
Theorem get_lock_non_ascii (c : Coordinator) (name : str) (x : N) :
  In x (prefix c ++ name) -> (128 <= x)%N ->
  get_lock c name = (Raise UnicodeEncodeError, []).
Proof.
  intros Hin Hx. unfold get_lock.
  rewrite (encode_ascii_none _ _ Hin Hx). reflexivity.
Qed.

Lemma get_lock_non_ascii_witness :
  get_lock (set_coordinator (Some (mkHandle [] true)) (COORDINATOR (ustr "a1")))
    [120%N; 233%N] = (Raise UnicodeEncodeError, []).
Proof.
  apply (get_lock_non_ascii _ _ 233%N).
  - vm_compute. tauto.
  - vm_compute. discriminate.
Defined.

(** ** What the methods compute *)

Ltac run_method :=
  cbv [bind try_except read write emit lift raise ret]; simpl.

Lemma _start_run (conf : config) (env : backend_reply) (c : Coordinator)
  (member_id : list byte) :
  encode_ascii (prefix c ++ agent_id c) = Some member_id ->
  _start conf env c =
    match reply_get_coordinator env with
    | Raise e =>
        (Raise e, c, [EvGetCoordinator (cfg_backend_url conf) member_id])
    | Ret beating =>
        let h := mkHandle member_id beating in
        (reply_start env, set_coordinator (Some h) c,
         [EvGetCoordinator (cfg_backend_url conf) member_id; EvBackendStart h])
    end.
Proof.
  intros Hm. unfold _start. run_method. rewrite Hm. run_method.
  destruct (reply_get_coordinator env) as [beating|e]; simpl; [|reflexivity].
  destruct (reply_start env); reflexivity.
Qed.

Lemma _start_unencodable (conf : config) (env : backend_reply) (c : Coordinator) :
  encode_ascii (prefix c ++ agent_id c) = None ->
  _start conf env c = (Raise UnicodeEncodeError, c, []).
Proof.
  intros Hm. unfold _start. run_method. rewrite Hm. reflexivity.
Qed.

Lemma _heartbeat_run (env : backend_reply) (c : Coordinator) (h : handle) :
  coordinator c = Some h ->
  _heartbeat env c =
    match reply_heartbeat env with
    | Ret _ => (Ret true, c, [EvBackendHeartbeat h])
    | Raise e =>
        if is_ToozConnectionError e
        then (Raise e, c, [EvBackendHeartbeat h; EvLog LogHeartbeatConnectionError])
        else if is_ToozError e
             then (Ret false, c, [EvBackendHeartbeat h; EvLog LogHeartbeatError])
             else (Raise e, c, [EvBackendHeartbeat h])
    end.
Proof.
  intros Hh. unfold _heartbeat. run_method. rewrite Hh. run_method.
  destruct (reply_heartbeat env) as [[]|e]; simpl; [reflexivity|].
  destruct (is_ToozConnectionError e) eqn:Hc; simpl.
  - rewrite Hc. rewrite andb_false_r. reflexivity.
  - rewrite ?Hc. destruct (is_ToozError e); reflexivity.
Qed.

Lemma dead_wait_run (timeout : Q) (c : Coordinator) (flag : bool) :
  _dead c = Some flag ->
  dead_wait timeout c = (Ret flag, c, [EvDeadWait timeout]).
Proof.
  intros Hd. unfold dead_wait. run_method. rewrite Hd. reflexivity.
Qed.

Lemma start_run (conf : config) (env : backend_reply) (c : Coordinator) :
  started c = false ->
  start conf env c =
    let c1 := set_dead (Some false) c in
    match _start conf env c1 with
    | (Raise e, c2, t) =>
        (Raise e, c2, if is_ToozError e then t ++ [EvLog LogStartError] else t)
    | (Ret _, c2, t) =>
        let c3 := set_started true c2 in
        match coordinator c3 with
        | Some h =>
            if requires_beating h
            then (Ret tt, set_ev (Some HeartbeatThread) c3,
                  t ++ [EvSpawnHeartbeat; EvLog LogStarted])
            else (Ret tt, c3, t ++ [EvLog LogStarted])
        | None => (Ret tt, c3, t ++ [EvLog LogStarted])
        end
    end.
Proof.
  intros Hs. unfold start. run_method. rewrite Hs. simpl.
  destruct (_start conf env (set_dead (Some false) c)) as [[[[]|e] c2] t]; simpl.
  - destruct (coordinator c2) as [h|]; simpl.
    + destruct (requires_beating h); simpl; rewrite ?app_nil_r, <- ?app_assoc;
        reflexivity.
    + rewrite ?app_nil_r. reflexivity.
  - destruct (is_ToozError e); simpl; rewrite ?app_nil_r; reflexivity.
Qed.

Lemma start_started (conf : config) (env : backend_reply) (c : Coordinator) :
  started c = true -> start conf env c = (Ret tt, c, []).
Proof.
  intros Hs. unfold start. run_method. rewrite Hs. reflexivity.
Qed.

(** ** One step of the heartbeat thread *)

Lemma conformant_replies (env : backend_reply) :
  conformant env = true ->
  tooz_only (reply_get_coordinator env) = true
  /\ tooz_only (reply_start env) = true
  /\ tooz_only (reply_heartbeat env) = true.
Proof.
  unfold conformant. intros Hc.
  apply andb_true_iff in Hc as [Hc H3]. apply andb_true_iff in Hc as [H1 H2].
  auto.
Qed.

Lemma _start_frame (conf : config) (env : backend_reply) (c c' : Coordinator)
  (r : result unit) (t : list event) :
  _start conf env c = (r, c', t) -> same_or_new_handle c c'.
Proof.
  unfold same_or_new_handle.
  destruct (encode_ascii (prefix c ++ agent_id c)) as [m|] eqn:Hm.
  - rewrite (_start_run conf env c m Hm).
    destruct (reply_get_coordinator env); intros Heq; inversion Heq; subst; eauto.
  - rewrite (_start_unencodable conf env c Hm).
    intros Heq; inversion Heq; subst; auto.
Qed.

Lemma _heartbeat_frame (env : backend_reply) (c c' : Coordinator)
  (r : result bool) (t : list event) :
  _heartbeat env c = (r, c', t) -> c' = c.
Proof.
  destruct (coordinator c) as [h|] eqn:Hh.
  - rewrite (_heartbeat_run env c h Hh).
    destruct (reply_heartbeat env) as [[]|e];
      [|destruct (is_ToozConnectionError e), (is_ToozError e)];
      intros Heq; inversion Heq; reflexivity.
  - unfold _heartbeat. run_method. rewrite Hh. simpl.
    intros Heq; inversion Heq; reflexivity.
Qed.

Lemma dead_wait_frame (timeout : Q) (c c' : Coordinator) (r : result bool)
  (t : list event) :
  dead_wait timeout c = (r, c', t) -> c' = c.
Proof.
  unfold dead_wait. run_method.
  destruct (_dead c); intros Heq; inversion Heq; reflexivity.
Qed.

Lemma heartbeat_step_frame (conf : config) (env : backend_reply)
  (pc pc' : loop_pc) (c c' : Coordinator) (t : list event) :
  heartbeat_step conf env pc c = (pc', c', t) ->
  same_or_new_handle c c'
  /\ forall why, pc' = Exited why ->
       pc = Exited why
       \/ (pc = AtTest /\ why = ByTeardown /\ coordinator c = None)
       \/ (pc = AtTest /\ why = ByShutdown /\ _dead c = Some true).
Proof.
  unfold same_or_new_handle.
  destruct pc as [| | |[attempt backoff|attempt backoff]|why0|e]; simpl.
  - destruct (coordinator c) as [h|] eqn:Hh;
      [destruct (_dead c) as [[|]|] eqn:Hd|];
      intros Heq; inversion Heq; subst; split; auto;
      intros why Hwhy; inversion Hwhy; subst; auto.
  - destruct (_heartbeat env c) as [[[b|e] c1] t1] eqn:Hhb;
      apply _heartbeat_frame in Hhb; subst c1;
      [|destruct (is_ToozConnectionError e)];
      intros Heq; inversion Heq; subst; split; auto; discriminate.
  - destruct (dead_wait (cfg_heartbeat conf) c) as [[[b|e] c1] t1] eqn:Hw;
      apply dead_wait_frame in Hw; subst c1;
      intros Heq; inversion Heq; subst; split; auto; discriminate.
  - destruct (_start conf env c) as [[[[]|e] c1] t1] eqn:Hst;
      apply _start_frame in Hst;
      [|destruct (is_ToozError e)];
      intros Heq; inversion Heq; subst; split; auto; discriminate.
  - destruct (dead_wait backoff c) as [[[b|e] c1] t1] eqn:Hw;
      apply dead_wait_frame in Hw; subst c1;
      intros Heq; inversion Heq; subst; split; auto; discriminate.
  - intros Heq; inversion Heq; subst; split; auto.
  - intros Heq; inversion Heq; subst; split; auto; discriminate.
Qed.

(** With a handle, a shutdown flag and an encodable member id, a step
    answered within the backend's interface does not raise. *)
Lemma heartbeat_step_no_crash (conf : config) (env : backend_reply)
  (pc pc' : loop_pc) (c c' : Coordinator) (t : list event) (e : exn) :
  encode_ascii (prefix c ++ agent_id c) <> None ->
  _dead c <> None ->
  coordinator c <> None ->
  conformant env = true ->
  heartbeat_step conf env pc c = (pc', c', t) ->
  pc' = Crashed e -> pc = Crashed e.
Proof.
  intros Hm Hd Hh Hconf Hstep.
  destruct (conformant_replies env Hconf) as (Hgc & Hst & Hhb).
  destruct (encode_ascii (prefix c ++ agent_id c)) as [m|] eqn:Em; [|congruence].
  destruct (_dead c) as [d|] eqn:Ed; [|congruence].
  destruct (coordinator c) as [h|] eqn:Eh; [|congruence].
  destruct pc as [| | |[attempt backoff|attempt backoff]|why|e0]; simpl in Hstep.
  - rewrite Eh, Ed in Hstep. destruct d; inversion Hstep; subst; discriminate.
  - rewrite (_heartbeat_run env c h Eh) in Hstep.
    destruct (reply_heartbeat env) as [[]|e1]; simpl in Hhb.
    + inversion Hstep; subst; discriminate.
    + rewrite Hhb in Hstep.
      destruct (is_ToozConnectionError e1) eqn:He; simpl in Hstep;
        rewrite ?He in Hstep; inversion Hstep; subst; discriminate.
  - rewrite (dead_wait_run _ c d Ed) in Hstep. inversion Hstep; subst; discriminate.
  - rewrite (_start_run conf env c m Em) in Hstep.
    destruct (reply_get_coordinator env) as [beating|e1]; simpl in Hgc, Hstep.
    + destruct (reply_start env) as [[]|e1]; simpl in Hst, Hstep;
        rewrite ?Hst in Hstep; inversion Hstep; subst; discriminate.
    + rewrite Hgc in Hstep. inversion Hstep; subst; discriminate.
  - rewrite (dead_wait_run _ c d Ed) in Hstep. inversion Hstep; subst; discriminate.
  - inversion Hstep; subst; discriminate.
  - inversion Hstep; subst; auto.
Qed.

Lemma heartbeat_step_finished (conf : config) (env : backend_reply)
  (pc : loop_pc) (c : Coordinator) :
  loop_finished (Some pc) = true ->
  heartbeat_step conf env pc c = (pc, c, []).
Proof. destruct pc; simpl; congruence. Qed.

(** ** The two threads together *)

Lemma boot_state (conf : config) (env : backend_reply) (c : Coordinator)
  (s : system) :
  started c = false -> boot conf env c = Some s ->
  exists m h,
    encode_ascii (prefix c ++ agent_id c) = Some m
    /\ sys_stop s = StopEntry
    /\ coordinator (sys_self s) = Some h
    /\ started (sys_self s) = true
    /\ _dead (sys_self s) = Some false
    /\ prefix (sys_self s) = prefix c
    /\ agent_id (sys_self s) = agent_id c
    /\ (sys_loop s = Some AtTest /\ _ev (sys_self s) <> None
        \/ sys_loop s = None).
Proof.
  intros Hs Hboot. unfold boot in Hboot. rewrite (start_run conf env c Hs) in Hboot.
  cbv zeta in Hboot.
  destruct (encode_ascii (prefix c ++ agent_id c)) as [m|] eqn:Hm.
  - rewrite (_start_run conf env (set_dead (Some false) c) m Hm) in Hboot.
    destruct (reply_get_coordinator env) as [beating|e]; [|discriminate Hboot].
    cbv zeta in Hboot.
    destruct (reply_start env) as [[]|e]; [|discriminate Hboot].
    simpl in Hboot. exists m, (mkHandle m beating).
    destruct beating; simpl in Hboot.
    + inversion Hboot; subst; clear Hboot. simpl.
      repeat split; auto; try (left; split; congruence).
    + inversion Hboot; subst; clear Hboot. simpl.
      repeat split; auto;
        try (destruct (_ev c); [left; split; congruence|right; reflexivity]).
  - rewrite (_start_unencodable conf env (set_dead (Some false) c) Hm) in Hboot.
    discriminate Hboot.
Qed.

Lemma boot_inv (conf : config) (env : backend_reply) (c : Coordinator)
  (s : system) :
  started c = false -> boot conf env c = Some s -> stop_inv s /\ loop_healthy s.
Proof.
  intros Hs Hboot.
  destruct (boot_state conf env c s Hs Hboot)
    as (m & h & Hm & Hpc & Hh & Hst & Hd & Hp & Ha & Hloop).
  unfold stop_inv, loop_healthy. rewrite Hpc, Hh, Hd, Hp, Ha, Hm.
  repeat split; try congruence; destruct Hloop as [[-> Hev]| ->]; auto; congruence.
Qed.

Lemma sys_step_stop_inv (conf : config) (a : action) (s s' : system) :
  stop_inv s -> sys_step conf a s = Some s' -> stop_inv s'.
Proof.
  intros (Hstarted & Hhandle & Hthread & Hloop) Hstep.
  destruct s as [c loop spc tr]; simpl in *.
  destruct a as [env|env]; simpl in Hstep.
  - destruct loop as [pc|]; [|discriminate Hstep].
    destruct (heartbeat_step conf env pc c) as [[pc' c'] t] eqn:Hhb.
    inversion Hstep; subst; clear Hstep.
    destruct (loop_finished (Some pc)) eqn:Hfin.
    + rewrite (heartbeat_step_finished conf env pc c Hfin) in Hhb.
      inversion Hhb; subst. unfold stop_inv; simpl. simpl in Hfin.
      repeat split; auto. destruct spc; auto.
    + destruct (heartbeat_step_frame conf env pc pc' c c' t Hhb) as [Hc' Hexit].
      assert (Hspc : match spc with
                     | StopJoined | StopEvCleared | StopHandleCleared
                     | StopReturned => False
                     | _ => True
                     end).
      { destruct spc; auto; congruence. }
      assert (Hc : coordinator c <> None).
      { destruct spc; auto; contradiction. }
      assert (Hfields : _dead c' = _dead c /\ started c' = started c
                        /\ _ev c' = _ev c /\ coordinator c' <> None).
      { destruct Hc' as [->|[h' ->]]; simpl; repeat split; congruence. }
      destruct Hfields as (Hdd & Hss & Hev & Hco).
      unfold stop_inv; simpl. rewrite Hdd, Hss, Hev.
      repeat split; auto.
      * destruct spc; auto.
      * destruct spc; try contradiction; intros _; apply Hthread; congruence.
      * destruct pc' as [| | | |why|e]; auto.
        destruct (Hexit why eq_refl) as [->|[(-> & -> & Hn)|(-> & -> & Hd)]].
        -- simpl in Hfin. discriminate Hfin.
        -- congruence.
        -- exact Hd.
  - destruct (stop_step env loop spc c) as [[[spc' c'] t]|] eqn:Hst;
      [|discriminate Hstep].
    inversion Hstep; subst; clear Hstep.
    unfold stop_inv; simpl.
    destruct spc; simpl in Hst.
    + rewrite (Hstarted eq_refl) in Hst.
      destruct (coordinator c) as [h|] eqn:Eh; [|congruence].
      destruct (reply_stop env); inversion Hst; subst; clear Hst;
        rewrite Eh; repeat split; auto; congruence.
    + destruct (_dead c) as [d|] eqn:Ed; inversion Hst; subst; clear Hst; simpl;
        repeat split; auto; try congruence;
        destruct loop as [[| | | |[|]|]|]; auto; congruence.
    + destruct (_ev c) eqn:Eev.
      * destruct loop as [[| | | |why|e]|]; simpl in Hst; try discriminate Hst;
          inversion Hst; subst; clear Hst;
          repeat split; auto; congruence.
      * inversion Hst; subst; clear Hst.
        repeat split; auto; try congruence.
        destruct loop; [exfalso; apply Hthread; congruence|reflexivity].
    + inversion Hst; subst; clear Hst. simpl. repeat split; auto; congruence.
    + inversion Hst; subst; clear Hst. simpl. repeat split; auto; congruence.
    + inversion Hst; subst; clear Hst. simpl. repeat split; auto; congruence.
    + discriminate Hst.
    + discriminate Hst.
Qed.

Lemma sys_step_healthy (conf : config) (a : action) (s s' : system) :
  conformant (action_env a) = true ->
  stop_inv s -> loop_healthy s -> sys_step conf a s = Some s' -> loop_healthy s'.
Proof.
  intros Hconf (Hstarted & Hhandle & Hthread & _) (Hm & Hd & Hloop) Hstep.
  destruct s as [c loop spc tr]; simpl in *.
  destruct a as [env|env]; simpl in Hstep, Hconf.
  - destruct loop as [pc|]; [|discriminate Hstep].
    destruct (heartbeat_step conf env pc c) as [[pc' c'] t] eqn:Hhb.
    inversion Hstep; subst; clear Hstep.
    destruct (loop_finished (Some pc)) eqn:Hfin.
    + rewrite (heartbeat_step_finished conf env pc c Hfin) in Hhb.
      inversion Hhb; subst. unfold loop_healthy; simpl. auto.
    + assert (Hc : coordinator c <> None).
      { destruct spc; auto; congruence. }
      destruct (heartbeat_step_frame conf env pc pc' c c' t Hhb) as [Hc' _].
      assert (Hfields : prefix c' = prefix c /\ agent_id c' = agent_id c
                        /\ _dead c' = _dead c).
      { destruct Hc' as [->|[h' ->]]; simpl; auto. }
      destruct Hfields as (Hp & Ha & Hdd).
      unfold loop_healthy; simpl. rewrite Hp, Ha, Hdd.
      repeat split; auto.
      destruct pc' as [| | | |why|e]; auto.
      rewrite (heartbeat_step_no_crash conf env pc (Crashed e) c c' t e
                 Hm Hd Hc Hconf Hhb eq_refl) in Hloop.
      exact Hloop.
  - destruct (stop_step env loop spc c) as [[[spc' c'] t]|] eqn:Hst;
      [|discriminate Hstep].
    inversion Hstep; subst; clear Hstep.
    unfold loop_healthy; simpl.
    destruct spc; simpl in Hst.
    + destruct (started c); [|inversion Hst; subst; auto].
      destruct (coordinator c); [destruct (reply_stop env)|];
        inversion Hst; subst; auto.
    + destruct (_dead c) as [d|] eqn:Ed; inversion Hst; subst; clear Hst; simpl;
        repeat split; auto; congruence.
    + destruct (_ev c); [destruct (join loop) as [[[]|e]|]|];
        inversion Hst; subst; auto.
    + inversion Hst; subst; auto.
    + inversion Hst; subst; auto.
    + inversion Hst; subst; auto.
    + discriminate Hst.
    + discriminate Hst.
Qed.

Lemma sys_run_stop_inv (conf : config) (acts : list action) (s s' : system) :
  stop_inv s -> sys_run conf acts s = Some s' -> stop_inv s'.
Proof.
  revert s. induction acts as [|a acts IH]; intros s Hinv Hrun; simpl in Hrun.
  - inversion Hrun; subst; exact Hinv.
  - destruct (sys_step conf a s) as [s1|] eqn:Hstep; [|discriminate Hrun].
    apply (IH s1); [|exact Hrun].
    exact (sys_step_stop_inv conf a s s1 Hinv Hstep).
Qed.

Lemma sys_run_healthy (conf : config) (acts : list action) (s s' : system) :
  Forall (fun a => conformant (action_env a) = true) acts ->
  stop_inv s -> loop_healthy s -> sys_run conf acts s = Some s' ->
  loop_healthy s'.
Proof.
  intros Hacts. revert s.
  induction Hacts as [|a acts Ha _ IH]; intros s Hinv Hh Hrun; simpl in Hrun.
  - inversion Hrun; subst; exact Hh.
  - destruct (sys_step conf a s) as [s1|] eqn:Hstep; [|discriminate Hrun].
    apply (IH s1); [| |exact Hrun].
    + exact (sys_step_stop_inv conf a s s1 Hinv Hstep).
    + exact (sys_step_healthy conf a s s1 Ha Hinv Hh Hstep).
Qed.

(** Once [stop()] has returned, nothing can happen any more. *)
Lemma sys_run_after_return (conf : config) (acts : list action) (s s' : system) :
  stop_inv s -> sys_stop s = StopReturned ->
  sys_run conf acts s = Some s' -> s' = s.
Proof.
  intros (_ & _ & Hthread & _) Hret. revert s' .
  induction acts as [|a acts IH]; intros s' Hrun; simpl in Hrun.
  - inversion Hrun; reflexivity.
  - destruct s as [c loop spc tr]; simpl in *. subst spc.
    destruct a as [env|env]; simpl in Hrun.
    + destruct loop as [pc|]; [|discriminate Hrun].
      rewrite (heartbeat_step_finished conf env pc c Hthread) in Hrun.
      rewrite app_nil_r in Hrun. apply IH. exact Hrun.
    + discriminate Hrun.
Qed.

(** ** The heartbeat loop *)

(** C6: in the heartbeat loop a backend error that is not a connection
    error is logged and suppressed, and the loop goes through its wait to
    the next heartbeat; a connection error enters the reconnection
    procedure; no step leaves the loop except the test of its condition,
    on a cleared handle or a set shutdown flag; and from [start()] on, as
    long as the backend fails only with backend errors, the heartbeat
    thread never dies of an exception and has left the loop only with the
    shutdown flag set. *)
Theorem heartbeat_loop_error_handling (conf : config) (env0 : backend_reply)
  (c0 : Coordinator) (s0 s : system) (acts : list action)
  (env : backend_reply) (c : Coordinator) (h : handle) (e : exn) :
  started c0 = false ->
  boot conf env0 c0 = Some s0 ->
  Forall (fun a => conformant (action_env a) = true) acts ->
  sys_run conf acts s0 = Some s ->
  coordinator c = Some h ->
  _dead c = Some false ->
  reply_heartbeat env = Raise e ->
  is_ToozError e = true ->
  (if is_ToozConnectionError e
   then heartbeat_step conf env AtHeartbeat c =
          (InReconnect (_reconnect_entry conf), c,
           [EvBackendHeartbeat h; EvLog LogHeartbeatConnectionError;
            EvLog LogReconnecting])
   else forall env1 env2,
          heartbeat_run conf [env; env1; env2] AtHeartbeat c [] =
          (AtHeartbeat, c,
           [EvBackendHeartbeat h; EvLog LogHeartbeatError;
            EvDeadWait (cfg_heartbeat conf)]))
  /\ (forall env' pc c1 c2 t why,
        heartbeat_step conf env' pc c1 = (Exited why, c2, t) ->
        pc = Exited why
        \/ (pc = AtTest /\ (coordinator c1 = None \/ _dead c1 = Some true)))
  /\ match sys_loop s with
     | Some (Crashed _) => False
     | Some (Exited why) => why = ByShutdown /\ _dead (sys_self s) = Some true
     | _ => True
     end.
Proof.
  intros Hs Hboot Hacts Hrun Hh Hd Hreply Htooz.
  split; [|split].
  - destruct (is_ToozConnectionError e) eqn:Hconn.
    + simpl. rewrite (_heartbeat_run env c h Hh), Hreply, Hconn. simpl.
      rewrite Hconn. reflexivity.
    + intros env1 env2. simpl.
      rewrite (_heartbeat_run env c h Hh), Hreply, Hconn, Htooz. simpl.
      rewrite (dead_wait_run _ c false Hd). simpl. rewrite Hh, Hd. reflexivity.
  - intros env' pc c1 c2 t why Hstep.
    destruct (heartbeat_step_frame conf env' pc (Exited why) c1 c2 t Hstep)
      as [_ Hexit].
    destruct (Hexit why eq_refl) as [Hpc|[(Hpc & _ & Hn)|(Hpc & _ & Hf)]]; auto.
  - destruct (boot_inv conf env0 c0 s0 Hs Hboot) as [Hinv Hhealthy].
    pose proof (sys_run_stop_inv conf acts s0 s Hinv Hrun) as (_ & _ & _ & Hexit).
    pose proof (sys_run_healthy conf acts s0 s Hacts Hinv Hhealthy Hrun)
      as (_ & _ & Hcrash).
    destruct (sys_loop s) as [[| | | |[|]|]|]; auto; contradiction.
Qed.

Lemma heartbeat_loop_error_handling_witness :
  (forall env1 env2,
     heartbeat_run example_conf [reply_refused; env1; env2] AtHeartbeat
       (sys_self example_system) [] =
     (AtHeartbeat, sys_self example_system,
      [EvBackendHeartbeat example_handle; EvLog LogHeartbeatError;
       EvDeadWait (cfg_heartbeat example_conf)]))
  /\ (forall env' pc c1 c2 t why,
        heartbeat_step example_conf env' pc c1 = (Exited why, c2, t) ->
        pc = Exited why
        \/ (pc = AtTest /\ (coordinator c1 = None \/ _dead c1 = Some true)))
  /\ match sys_loop example_stopped with
     | Some (Crashed _) => False
     | Some (Exited why) =>
         why = ByShutdown /\ _dead (sys_self example_stopped) = Some true
     | _ => True
     end.
Proof.
  apply (heartbeat_loop_error_handling example_conf reply_ok example_coordinator
           example_system example_stopped example_life reply_refused
           (sys_self example_system) example_handle ToozError).
  - reflexivity.
  - vm_compute. reflexivity.
  - unfold example_life. repeat constructor.
  - vm_compute. reflexivity.
  - vm_compute. reflexivity.
  - vm_compute. reflexivity.
  - reflexivity.
  - reflexivity.
Defined.

(** ** [stop] and the heartbeat thread *)

(** C8: from a [start()] on, whenever [stop()] has returned, the
    heartbeat thread (if one was spawned) has left its loop on the
    shutdown flag, and whatever is scheduled afterwards changes nothing:
    in particular no further heartbeat is sent. *)
Theorem stop_returns_after_heartbeat_exit (conf : config) (env : backend_reply)
  (c : Coordinator) (s0 s s' : system) (acts acts' : list action) :
  started c = false ->
  boot conf env c = Some s0 ->
  sys_run conf acts s0 = Some s ->
  sys_stop s = StopReturned ->
  sys_run conf acts' s = Some s' ->
  (sys_loop s = None \/ sys_loop s = Some (Exited ByShutdown))
  /\ s' = s
  /\ List.filter is_heartbeat (sys_trace s') = List.filter is_heartbeat (sys_trace s).
Proof.
  intros Hs Hboot Hrun Hret Hrun'.
  destruct (boot_inv conf env c s0 Hs Hboot) as [Hinv _].
  pose proof (sys_run_stop_inv conf acts s0 s Hinv Hrun) as Hinv'.
  pose proof (sys_run_after_return conf acts' s s' Hinv' Hret Hrun') as ->.
  split; [|split; reflexivity].
  destruct Hinv' as (_ & _ & Hthread & Hexit). rewrite Hret in Hthread.
  destruct (sys_loop s) as [[| | | |[|]|]|]; simpl in Hthread;
    auto; try discriminate Hthread; contradiction.
Qed.

Lemma stop_returns_after_heartbeat_exit_witness :
  sys_stop example_stopped = StopReturned
  /\ sys_loop example_stopped = Some (Exited ByShutdown)
  /\ List.filter is_heartbeat (sys_trace example_stopped) =
       [EvBackendHeartbeat example_handle; EvBackendHeartbeat example_handle;
        EvBackendHeartbeat example_handle].
Proof.
  split; [vm_compute; reflexivity|].
  destruct (stop_returns_after_heartbeat_exit example_conf reply_ok
              example_coordinator example_system example_stopped example_stopped
              example_life [LoopStep reply_down])
    as ([Hnone|Hexit] & _ & _).
  - reflexivity.
  - vm_compute. reflexivity.
  - vm_compute. reflexivity.
  - vm_compute. reflexivity.
  - vm_compute. reflexivity.
  - vm_compute in Hnone. discriminate Hnone.
  - split; [exact Hexit|]. vm_compute. reflexivity.
Defined.

(** ** Reconnection and shutdown *)

Lemma heartbeat_run_trace (conf : config) (envs : list backend_reply)
  (pc : loop_pc) (c : Coordinator) (t0 : list event) :
  heartbeat_run conf envs pc c t0 =
    match heartbeat_run conf envs pc c [] with
    | (pc', c', t) => (pc', c', t0 ++ t)
    end.
Proof.
  revert pc c t0. induction envs as [|env envs IH]; intros pc c t0; simpl.
  - rewrite app_nil_r. reflexivity.
  - destruct (heartbeat_step conf env pc c) as [[pc1 c1] t1].
    rewrite (IH pc1 c1 (t0 ++ t1)), (IH pc1 c1 t1).
    destruct (heartbeat_run conf envs pc1 c1 []) as [[pc2 c2] t2].
    rewrite app_assoc. reflexivity.
Qed.

(** With the shutdown flag set and the backend unreachable, the
    reconnection procedure goes on: after [n] more waits it has made [n]
    more connection attempts and is waiting again. *)
Lemma reconnect_goes_on_after_shutdown (conf : config) (env : backend_reply)
  (c : Coordinator) (m : list byte) (e : exn) (n : nat) :
  _dead c = Some true ->
  encode_ascii (prefix c ++ agent_id c) = Some m ->
  reply_get_coordinator env = Raise e ->
  is_ToozError e = true ->
  forall attempt backoff,
  exists attempt' backoff' t,
    heartbeat_run conf (concat (repeat [env; env] n))
      (InReconnect (RcWait attempt backoff)) c [] =
      (InReconnect (RcWait attempt' backoff'), c, t)
    /\ length (List.filter is_connect t) = n.
Proof.
  intros Hd Hm Hgc He. induction n as [|n IH]; intros attempt backoff.
  - exists attempt, backoff, []. split; reflexivity.
  - cbn [repeat concat app heartbeat_run heartbeat_step _reconnect_step].
    rewrite (dead_wait_run backoff c true Hd).
    cbn [heartbeat_run heartbeat_step _reconnect_step].
    rewrite (_start_run conf env c m Hm), Hgc, He.
    rewrite heartbeat_run_trace.
    match goal with
    | |- context [heartbeat_run conf _ (InReconnect (RcWait ?a ?b)) c []] =>
        destruct (IH a b) as (attempt' & backoff' & t & Hrun & Hlen)
    end.
    rewrite Hrun. do 3 eexists. split; [reflexivity|].
    simpl. rewrite Hlen. reflexivity.
Qed.

(** C5 fails on the code: the shutdown flag is set while [_reconnect]
    waits for its backoff, the wait returns, and the procedure makes its
    second connection attempt and waits again, while [stop()] is blocked
    in its join. *)
Theorem reconnect_ignores_shutdown :
  _dead (sys_self example_waiting) = Some true
  /\ (exists backoff,
        sys_loop example_waiting = Some (InReconnect (RcWait 1 backoff)))
  /\ sys_stop example_waiting = StopDeadSet
  /\ exists s backoff backoff',
       sys_run example_conf [LoopStep reply_down; LoopStep reply_down]
         example_waiting = Some s
       /\ sys_trace s =
            sys_trace example_waiting
            ++ [EvDeadWait backoff;
                EvGetCoordinator (cfg_backend_url example_conf) example_member;
                EvLog (LogReconnectFailed 2 backoff')]
       /\ sys_loop s = Some (InReconnect (RcWait 2 backoff'))
       /\ sys_step example_conf (StopStep reply_ok) s = None.
Proof.
  split; [vm_compute; reflexivity|].
  split; [eexists; vm_compute; reflexivity|].
  split; [vm_compute; reflexivity|].
  do 3 eexists. split; [vm_compute; reflexivity|].
  split; [vm_compute; reflexivity|].
  split; vm_compute; reflexivity.
Qed.

(** ** The reconnection backoff *)







(** ** Connected iff a handle is held *)








(** ** Guarded calls *)

Section SynchronizedFacts.
Context {value : Type} `{PyObject value}.

Lemma get_lock_cases (c : Coordinator) (resolved : str) (r : result lock)
  (t : list event) :
  get_lock c resolved = (r, t) ->
  (exists e, r = Raise e /\ t = [])
  \/ (exists h requested,
        coordinator c = Some h
        /\ encode_ascii (prefix c ++ resolved) = Some requested
        /\ r = Ret (backend_get_lock h requested)
        /\ t = [EvBackendGetLock h requested]).
Proof.
  unfold get_lock.
  destruct (encode_ascii (prefix c ++ resolved)) as [requested|];
    [destruct (coordinator c) as [h|]|];
    intros Heq; inversion Heq; subst; eauto 10.
Qed.

(** What a guarded call does once its lock name is resolved and the
    coordinator has handed out the lock. *)
Lemma _synchronized_run (lock_name : str) (b : blocking) (c : Coordinator)
  (env : call_env) (f : operation) (a : list value) (k : gmap str value)
  (params : gmap str value) (resolved : str) (l : lock) :
  getcallargs (op_signature f) a k = Ret params ->
  format lock_name (<[ustr "f_name" := py_str (op_name f)]> params)
    = Ret resolved ->
  get_lock c resolved = (Ret l, [EvBackendGetLock (lock_via l) (name l)]) ->
  _synchronized lock_name b c env f a k =
    if granted env
    then (op_body f a k,
          [EvBackendGetLock (lock_via l) (name l);
           EvAcquire l b true;
           EvLog (LogAcquired (name l) (op_name f) (now2 env - now1 env)%Q);
           EvCall (op_name f);
           EvRelease l;
           EvLog (LogReleased (name l) (op_name f)
                    (Some (now3 env - now2 env)%Q))])
    else (Raise LockAcquireFailed,
          [EvBackendGetLock (lock_via l) (name l);
           EvAcquire l b false;
           EvLog (LogReleased (name l) (op_name f) None)]).
Proof.
  intros Hargs Hfmt Hlock. unfold _synchronized.
  rewrite Hargs, Hfmt, Hlock. unfold wbind, with_lock, lock_enter, lock_exit, wbind.
  destruct (granted env); simpl.
  - destruct (op_body f a k); reflexivity.
  - reflexivity.
Qed.

(** A guarded call that left any event behind went through all of name
    resolution and got its lock from the coordinator. *)
Lemma _synchronized_cases (lock_name : str) (b : blocking) (c : Coordinator)
  (env : call_env) (f : operation) (a : list value) (k : gmap str value)
  (r : result value) (t : list event) :
  _synchronized lock_name b c env f a k = (r, t) ->
  t = []
  \/ exists params resolved h requested,
       getcallargs (op_signature f) a k = Ret params
       /\ format lock_name (<[ustr "f_name" := py_str (op_name f)]> params)
          = Ret resolved
       /\ coordinator c = Some h
       /\ encode_ascii (prefix c ++ resolved) = Some requested
       /\ get_lock c resolved =
            (Ret (backend_get_lock h requested), [EvBackendGetLock h requested]).
Proof.
  intros Hcall. unfold _synchronized in Hcall.
  destruct (getcallargs (op_signature f) a k) as [params|e] eqn:Hargs;
    [|inversion Hcall; auto].
  destruct (format lock_name (<[ustr "f_name" := py_str (op_name f)]> params))
    as [resolved|e] eqn:Hfmt; [|inversion Hcall; auto].
  destruct (get_lock c resolved) as [rl tl] eqn:Hlock.
  destruct (get_lock_cases c resolved rl tl Hlock)
    as [(e & -> & ->)|(h & requested & Hh & Henc & -> & ->)].
  - simpl in Hcall. inversion Hcall; auto.
  - right. exists params, resolved, h, requested. auto.
Qed.

Lemma bind_named_none (args : list str) (m : gmap str value) :
  bind_named args (m, ∅) = Ret (m, ∅).
Proof.
  induction args as [|arg args IH]; simpl; [reflexivity|].
  rewrite lookup_empty. exact IH.
Qed.

(** Arguments passed by position to a function of plain parameters
    are bound to the parameters of the same positions. *)
Lemma getcallargs_positional (args : list str) (a : list value) :
  NoDup args -> length a = length args ->
  exists params,
    getcallargs (mkSignature args None None []) a ∅ = Ret params
    /\ forall i arg v, args !! i = Some arg -> a !! i = Some v ->
         params !! arg = Some v.
Proof.
  intros Hnodup Hlen. exists (list_to_map (zip args a)). split.
  - assert (Hall : forallb
              (fun arg => bool_decide
                 (is_Some ((list_to_map (zip args a) : gmap str value) !! arg)))
              args = true).
    { apply forallb_forall. intros arg Hin.
      apply bool_decide_eq_true_2.
      destruct ((list_to_map (zip args a) : gmap str value) !! arg)
        as [v|] eqn:Hl; [eauto|].
      apply not_elem_of_list_to_map_2 in Hl.
      rewrite fst_zip in Hl by lia. apply list_elem_of_In in Hin.
      contradiction. }
    unfold getcallargs. simpl. rewrite Hlen, Nat.ltb_irrefl.
    rewrite bool_decide_eq_true_2 by reflexivity.
    rewrite andb_true_r. simpl negb. rewrite andb_false_r.
    cbn [mbind result_bind]. rewrite bind_named_none.
    cbn [mbind result_bind fst snd]. rewrite zip_with_nil_r.
    rewrite bool_decide_eq_true_2 by reflexivity.
    cbn [mbind result_bind bind_defaults]. rewrite Hall. reflexivity.
  - intros i arg v Hi Ha.
    apply elem_of_list_to_map_1.
    + rewrite fst_zip by lia. exact Hnodup.
    + apply list_elem_of_lookup. exists i.
      apply lookup_zip_with_Some. eauto.
Qed.



(** C1: whenever a guarded call acquires its lock, the wrapped operation
    is executed, the lock is released after it and before the wrapper
    returns (only the release record is logged afterwards), and the
    wrapper's own outcome is the operation's, unchanged, whether that is
    a result or a failure. *)
Theorem synchronized_acquired (lock_name : str) (b b' : blocking)
  (c : Coordinator) (env : call_env) (f : operation) (a : list value)
  (k : gmap str value) (r : result value) (t : list event) (l : lock) :
  _synchronized lock_name b c env f a k = (r, t) ->
  In (EvAcquire l b' true) t ->
  r = op_body f a k
  /\ b' = b
  /\ exists wait held,
       t = [EvBackendGetLock (lock_via l) (name l);
            EvAcquire l b true;
            EvLog (LogAcquired (name l) (op_name f) wait);
            EvCall (op_name f);
            EvRelease l;
            EvLog (LogReleased (name l) (op_name f) (Some held))].
Proof.
  intros Hcall Hin.
  destruct (_synchronized_cases _ _ _ _ _ _ _ _ _ Hcall)
    as [->|(params & resolved & h & requested & Hargs & Hfmt & _ & _ & Hlock)];
    [destruct Hin|].
  rewrite (_synchronized_run lock_name b c env f a k params resolved
             (backend_get_lock h requested) Hargs Hfmt Hlock) in Hcall.
  destruct (granted env); inversion Hcall; subst; clear Hcall; simpl in Hin.
  - destruct Hin as [Hin|[Hin|[Hin|[Hin|[Hin|[Hin|[]]]]]]];
      try discriminate Hin.
    inversion Hin; subst. eauto.
  - destruct Hin as [Hin|[Hin|[Hin|[]]]]; discriminate Hin.
Qed.

(** C2: whenever the lock of a guarded call is not granted, under
    whatever blocking policy, the wrapper fails with
    [LockAcquireFailed] and the wrapped operation is never called. *)
Theorem synchronized_not_acquired (lock_name : str) (b b' : blocking)
  (c : Coordinator) (env : call_env) (f : operation) (a : list value)
  (k : gmap str value) (r : result value) (t : list event) (l : lock) :
  _synchronized lock_name b c env f a k = (r, t) ->
  In (EvAcquire l b' false) t ->
  r = Raise LockAcquireFailed
  /\ b' = b
  /\ (forall function, ~ In (EvCall function) t)
  /\ (forall l', ~ In (EvRelease l') t).
Proof.
  intros Hcall Hin.
  destruct (_synchronized_cases _ _ _ _ _ _ _ _ _ Hcall)
    as [->|(params & resolved & h & requested & Hargs & Hfmt & _ & _ & Hlock)];
    [destruct Hin|].
  rewrite (_synchronized_run lock_name b c env f a k params resolved
             (backend_get_lock h requested) Hargs Hfmt Hlock) in Hcall.
  destruct (granted env); inversion Hcall; subst; clear Hcall; simpl in Hin.
  - destruct Hin as [Hin|[Hin|[Hin|[Hin|[Hin|[Hin|[]]]]]]]; discriminate Hin.
  - destruct Hin as [Hin|[Hin|[Hin|[]]]]; try discriminate Hin.
    inversion Hin; subst. repeat split; auto.
    + intros function [Hc|[Hc|[Hc|[]]]]; discriminate Hc.
    + intros l' [Hc|[Hc|[Hc|[]]]]; discriminate Hc.
Qed.


End SynchronizedFacts.

Lemma synchronized_acquired_witness :
  (fst example_call_foo = Ret (obj_str (ustr "done"))
   /\ exists wait held,
        snd example_call_foo =
          [EvBackendGetLock example_handle
             (name (example_lock_of "cinder-foo-v-17-s1"));
           EvAcquire (example_lock_of "cinder-foo-v-17-s1") Block true;
           EvLog (LogAcquired (name (example_lock_of "cinder-foo-v-17-s1"))
                    (ustr "foo") wait);
           EvCall (ustr "foo");
           EvRelease (example_lock_of "cinder-foo-v-17-s1");
           EvLog (LogReleased (name (example_lock_of "cinder-foo-v-17-s1"))
                    (ustr "foo") (Some held))])
  /\ (fst example_call_bar = Raise (OperationError (ustr "boom"))
      /\ exists wait held,
           snd example_call_bar =
             [EvBackendGetLock example_handle
                (name (example_lock_of "cinder-bar-v-17-s1"));
              EvAcquire (example_lock_of "cinder-bar-v-17-s1") (Timeout 5) true;
              EvLog (LogAcquired (name (example_lock_of "cinder-bar-v-17-s1"))
                       (ustr "bar") wait);
              EvCall (ustr "bar");
              EvRelease (example_lock_of "cinder-bar-v-17-s1");
              EvLog (LogReleased (name (example_lock_of "cinder-bar-v-17-s1"))
                       (ustr "bar") (Some held))]).
Proof.
  split.
  - destruct (synchronized_acquired (ustr "{f_name}-{vol.id}-{snap[name]}")
                Block Block (sys_self example_system) (mkCallEnv true 10 11 15)
                foo [example_self; example_vol; example_snap] ∅
                (fst example_call_foo) (snd example_call_foo)
                (example_lock_of "cinder-foo-v-17-s1"))
      as (Hr & _ & wait & held & Ht).
    + apply surjective_pairing.
    + vm_compute. right; left; reflexivity.
    + split; [rewrite Hr; reflexivity|exists wait, held; exact Ht].
  - destruct (synchronized_acquired (ustr "{f_name}-{vol.id}-{snap[name]}")
                (Timeout 5) (Timeout 5) (sys_self example_system)
                (mkCallEnv true 10 11 15)
                bar [example_self; example_vol] (<[ustr "snap" := example_snap]> ∅)
                (fst example_call_bar) (snd example_call_bar)
                (example_lock_of "cinder-bar-v-17-s1"))
      as (Hr & _ & wait & held & Ht).
    + apply surjective_pairing.
    + vm_compute. right; left; reflexivity.
    + split; [rewrite Hr; reflexivity|exists wait, held; exact Ht].
Defined.

Lemma synchronized_not_acquired_witness :
  fst example_call_denied = Raise LockAcquireFailed
  /\ (forall function, ~ In (EvCall function) (snd example_call_denied))
  /\ (forall l, ~ In (EvRelease l) (snd example_call_denied)).
Proof.
  destruct (synchronized_not_acquired (ustr "{f_name}-{vol.id}-{snap[name]}")
              NoBlock NoBlock (sys_self example_system) (mkCallEnv false 10 11 15)
              foo [example_self; example_vol; example_snap] ∅
              (fst example_call_denied) (snd example_call_denied)
              (example_lock_of "cinder-foo-v-17-s1"))
    as (Hr & _ & Hcall & Hrel).
  - apply surjective_pairing.
  - vm_compute. right; left; reflexivity.
  - split; [exact Hr|]. split; [exact Hcall|exact Hrel].
Defined.



(** ** The model on concrete inputs *)

Example encode_ascii_member :
  option_map (map Byte.to_N) (encode_ascii (ustr "cinder-agent-1"))
  = Some (ustr "cinder-agent-1").
Proof. reflexivity. Qed.

Example start_example :
  start example_conf reply_ok example_coordinator =
    (Ret tt,
     mkCoordinator (Some (mkHandle example_member true)) (ustr "agent-1") true
       (ustr "cinder-") (Some HeartbeatThread) (Some false),
     [EvGetCoordinator (ustr "file:///var/lib/cinder") example_member;
      EvBackendStart (mkHandle example_member true);
      EvSpawnHeartbeat; EvLog LogStarted]).
Proof. reflexivity. Qed.

Example start_unreachable_example :
  start example_conf reply_down example_coordinator =
    (Raise ToozError, set_dead (Some false) example_coordinator,
     [EvGetCoordinator (ustr "file:///var/lib/cinder") example_member;
      EvLog LogStartError]).
Proof. reflexivity. Qed.

Example stop_example :
  stop reply_ok (Some (Exited ByShutdown)) (sys_self example_system) =
    (StopReturned,
     mkCoordinator None (ustr "agent-1") false (ustr "cinder-") None (Some true),
     [EvBackendStop example_handle]).
Proof. reflexivity. Qed.

Example stop_blocked_example :
  fst (fst (stop reply_ok (Some AtSleep) (sys_self example_system))) = StopDeadSet.
Proof. reflexivity. Qed.

Example stop_not_started_example :
  stop reply_ok None example_coordinator = (StopReturned, example_coordinator, []).
Proof. reflexivity. Qed.

Example format_docstring_example :
  format (ustr "{f_name}-{vol.id}-{snap[name]}")
    (<[ustr "f_name" := obj_str (ustr "foo")]>
       (<[ustr "vol" := example_vol]> (<[ustr "snap" := example_snap]> ∅)))
  = Ret (ustr "foo-v-17-s1").
Proof. vm_compute. reflexivity. Qed.

Example format_escapes_example :
  format (ustr "{{{f_name!r}}}") (<[ustr "f_name" := obj_str (ustr "foo")]> ∅)
  = Ret (ustr "{'foo'}").
Proof. vm_compute. reflexivity. Qed.

Example format_unknown_field_example :
  format (ustr "lock-{volume}") (<[ustr "f_name" := obj_str (ustr "foo")]> ∅)
  = Raise (KeyError (ustr "volume")).
Proof. vm_compute. reflexivity. Qed.

Example format_positional_field_example :
  format (ustr "lock-{}") (<[ustr "f_name" := obj_str (ustr "foo")]> ∅)
  = Raise IndexError.
Proof. vm_compute. reflexivity. Qed.

Example format_single_brace_example :
  format (ustr "lock-}") (<[ustr "f_name" := obj_str (ustr "foo")]> ∅)
  = Raise ValueError.
Proof. vm_compute. reflexivity. Qed.

Example getcallargs_missing_example :
  getcallargs example_signature [example_self; example_vol] ∅ = Raise TypeError.
Proof. vm_compute. reflexivity. Qed.

Example getcallargs_twice_example :
  getcallargs example_signature [example_self; example_vol; example_snap]
    (<[ustr "vol" := example_vol]> ∅) = Raise TypeError.
Proof. vm_compute. reflexivity. Qed.

Example synchronized_disconnected_example :
  _synchronized (ustr "{f_name}") NoBlock example_coordinator
    (mkCallEnv true 10 11 15) foo [example_self; example_vol; example_snap] ∅
  = (Raise (LockCreationFailed (ustr "Coordinator uninitialized.")), []).
Proof. vm_compute. reflexivity. Qed.


(** * Further properties of the code *)

(** ** Lock names *)





(** ** [start] *)

Lemma start_returns (conf : config) (env : backend_reply)
  (c c' : Coordinator) (t : list event) :
  started c = false ->
  start conf env c = (Ret tt, c', t) ->
  exists member beating,
    encode_ascii (prefix c ++ agent_id c) = Some member
    /\ reply_get_coordinator env = Ret beating
    /\ coordinator c' = Some (mkHandle member beating)
    /\ started c' = true
    /\ _dead c' = Some false
    /\ _ev c' = (if beating then Some HeartbeatThread else _ev c)
    /\ prefix c' = prefix c /\ agent_id c' = agent_id c
    /\ t = [EvGetCoordinator (cfg_backend_url conf) member;
            EvBackendStart (mkHandle member beating)]
           ++ (if beating then [EvSpawnHeartbeat] else [])
           ++ [EvLog LogStarted].
Proof.
  intros Hs Hstart. rewrite (start_run conf env c Hs) in Hstart.
  cbv zeta in Hstart.
  destruct (encode_ascii (prefix c ++ agent_id c)) as [m|] eqn:Hm.
  - rewrite (_start_run conf env (set_dead (Some false) c) m Hm) in Hstart.
    destruct (reply_get_coordinator env) as [beating|e]; [|discriminate Hstart].
    cbv zeta in Hstart.
    destruct (reply_start env) as [[]|e]; [|discriminate Hstart].
    exists m, beating. simpl in Hstart.
    destruct beating; simpl in Hstart; inversion Hstart; subst; simpl;
      repeat split; reflexivity.
  - rewrite (_start_unencodable conf env (set_dead (Some false) c) Hm) in Hstart.
    discriminate Hstart.
Qed.

(** A [start()] that returns on a coordinator not yet started has
    connected under the member id made of prefix and agent id: it holds
    the handle just obtained, [started] is true, the shutdown event is
    fresh and unset, a heartbeat thread is spawned exactly when the
    backend requires beating, and the backend was asked to create and to
    start that handle, in this order. *)
Theorem start_success (conf : config) (env : backend_reply)
  (c c' : Coordinator) (t : list event) :
  started c = false ->
  start conf env c = (Ret tt, c', t) ->
  exists member beating,
    encode_ascii (prefix c ++ agent_id c) = Some member
    /\ reply_get_coordinator env = Ret beating
    /\ coordinator c' = Some (mkHandle member beating)
    /\ started c' = true
    /\ _dead c' = Some false
    /\ _ev c' = (if beating then Some HeartbeatThread else _ev c)
    /\ prefix c' = prefix c /\ agent_id c' = agent_id c
    /\ t = [EvGetCoordinator (cfg_backend_url conf) member;
            EvBackendStart (mkHandle member beating)]
           ++ (if beating then [EvSpawnHeartbeat] else [])
           ++ [EvLog LogStarted].
Proof. exact (start_returns conf env c c' t). Qed.

Lemma start_success_witness :
  exists member beating,
    encode_ascii (prefix example_coordinator ++ agent_id example_coordinator)
      = Some member
    /\ reply_get_coordinator reply_ok = Ret beating
    /\ coordinator (sys_self example_system) = Some (mkHandle member beating)
    /\ started (sys_self example_system) = true
    /\ _dead (sys_self example_system) = Some false
    /\ _ev (sys_self example_system)
       = (if beating then Some HeartbeatThread else _ev example_coordinator)
    /\ prefix (sys_self example_system) = prefix example_coordinator
    /\ agent_id (sys_self example_system) = agent_id example_coordinator
    /\ sys_trace example_system
       = [EvGetCoordinator (cfg_backend_url example_conf) member;
          EvBackendStart (mkHandle member beating)]
         ++ (if beating then [EvSpawnHeartbeat] else [])
         ++ [EvLog LogStarted].
Proof.
  apply (start_success example_conf reply_ok example_coordinator
           (sys_self example_system) (sys_trace example_system)).
  - reflexivity.
  - reflexivity.
Defined.

(** [start()] is idempotent: once a [start()] has returned, another one,
    whatever the backend would answer, calls nothing, logs nothing and
    changes nothing. *)
Theorem start_twice (conf : config) (env env' : backend_reply)
  (c c' : Coordinator) (t : list event) :
  start conf env c = (Ret tt, c', t) ->
  start conf env' c' = (Ret tt, c', []).
Proof.
  intros Hstart. apply start_started.
  destruct (started c) eqn:Hs.
  - rewrite (start_started conf env c Hs) in Hstart.
    inversion Hstart; subst; exact Hs.
  - rewrite (start_run conf env c Hs) in Hstart. cbv zeta in Hstart.
    destruct (_start conf env (set_dead (Some false) c)) as [[[[]|e] c2] t2];
      [|inversion Hstart].
    destruct (coordinator (set_started true c2)) as [h|];
      [destruct (requires_beating h)|];
      inversion Hstart; subst; reflexivity.
Qed.

Lemma start_twice_witness :
  start example_conf reply_down (sys_self example_system)
  = (Ret tt, sys_self example_system, []).
Proof.
  apply (start_twice example_conf reply_ok reply_down example_coordinator
           (sys_self example_system) (sys_trace example_system)).
  reflexivity.
Defined.

(** A [start()] that raises leaves [started] false and the thread handle
    as it was, spawns no heartbeat thread and does not log a successful
    start; it logs the error exactly when it is a backend error; and the
    shutdown event it created is left in place, unset. *)
Theorem start_failure (conf : config) (env : backend_reply)
  (c c' : Coordinator) (e : exn) (t : list event) :
  start conf env c = (Raise e, c', t) ->
  started c = false
  /\ started c' = false
  /\ _ev c' = _ev c
  /\ _dead c' = Some false
  /\ ~ In EvSpawnHeartbeat t
  /\ ~ In (EvLog LogStarted) t
  /\ (In (EvLog LogStartError) t <-> is_ToozError e = true).
Proof.
  intros Hstart.
  destruct (started c) eqn:Hs.
  { rewrite (start_started conf env c Hs) in Hstart. discriminate Hstart. }
  rewrite (start_run conf env c Hs) in Hstart. cbv zeta in Hstart.
  assert (Hshape : exists c2 t2,
            _start conf env (set_dead (Some false) c) = (Raise e, c2, t2)
            /\ c' = c2
            /\ t = (if is_ToozError e then t2 ++ [EvLog LogStartError] else t2)).
  { destruct (_start conf env (set_dead (Some false) c)) as [[[[]|e2] c2] t2].
    - destruct (coordinator (set_started true c2)) as [h|];
        [destruct (requires_beating h)|]; discriminate Hstart.
    - inversion Hstart; subst. eauto. }
  destruct Hshape as (c2 & t2 & Hrun & -> & ->).
  assert (Hframe : started c2 = false /\ _ev c2 = _ev c /\ _dead c2 = Some false).
  { destruct (_start_frame conf env _ c2 _ t2 Hrun) as [->|[h ->]];
      simpl; auto. }
  assert (Ht2 : forall ev, In ev t2 -> is_connect ev = true
                                      \/ exists h, ev = EvBackendStart h).
  { destruct (encode_ascii (prefix c ++ agent_id c)) as [m|] eqn:Hm.
    - rewrite (_start_run conf env (set_dead (Some false) c) m Hm) in Hrun.
      destruct (reply_get_coordinator env); inversion Hrun; subst;
        simpl; intros ev Hin; intuition (subst; eauto).
    - rewrite (_start_unencodable conf env (set_dead (Some false) c) Hm) in Hrun.
      inversion Hrun; subst. intros ev []. }
  assert (Hno : forall ev, (forall h, ev <> EvBackendStart h) ->
                           is_connect ev = false -> ~ In ev t2).
  { intros ev Hne Hc Hin. destruct (Ht2 ev Hin) as [Hc'|[h ->]];
      [congruence|exact (Hne h eq_refl)]. }
  destruct Hframe as (Hst & Hev & Hd).
  split; [reflexivity|]. split; [exact Hst|]. split; [exact Hev|].
  split; [exact Hd|].
  destruct (is_ToozError e).
  - split; [|split; [|split]].
    + intros Hin. apply in_app_or in Hin as [Hin|[Hin|[]]]; [|discriminate Hin].
      revert Hin. apply Hno; [discriminate|reflexivity].
    + intros Hin. apply in_app_or in Hin as [Hin|[Hin|[]]]; [|discriminate Hin].
      revert Hin. apply Hno; [discriminate|reflexivity].
    + reflexivity.
    + intros _. apply in_or_app. right. left. reflexivity.
  - split; [|split; [|split]].
    + apply Hno; [discriminate|reflexivity].
    + apply Hno; [discriminate|reflexivity].
    + intros Hin. exfalso. revert Hin. apply Hno; [discriminate|reflexivity].
    + discriminate.
Qed.

Lemma start_failure_witness :
  started (state_of (start example_conf reply_down example_coordinator)) = false
  /\ In (EvLog LogStartError)
       (snd (start example_conf reply_down example_coordinator)).
Proof.
  destruct (start_failure example_conf reply_down example_coordinator
              (state_of (start example_conf reply_down example_coordinator))
              ToozError
              (snd (start example_conf reply_down example_coordinator)))
    as (_ & Hs & _ & _ & _ & _ & Hlog).
  - reflexivity.
  - split; [exact Hs|]. apply Hlog. reflexivity.
Defined.

(** ** [stop] *)

Lemma stop_returns (env : backend_reply) (thread : option loop_pc)
  (c c' : Coordinator) (t : list event) :
  started c = true ->
  stop env thread c = (StopReturned, c', t) ->
  exists h,
    coordinator c = Some h
    /\ t = [EvBackendStop h]
    /\ c' = mkCoordinator None (agent_id c) false (prefix c) None (Some true)
    /\ (_ev c <> None -> exists why, thread = Some (Exited why)).
Proof.
  intros Hs Hstop. unfold stop in Hstop. simpl in Hstop. rewrite Hs in Hstop.
  destruct (coordinator c) as [h|] eqn:Hh; [|discriminate Hstop].
  exists h. split; [reflexivity|].
  destruct (reply_stop env) as [[]|e]; simpl in Hstop; [|discriminate Hstop].
  destruct (_dead c) as [d|] eqn:Hd; simpl in Hstop; [|discriminate Hstop].
  destruct (_ev c) as [ev|] eqn:Hev; simpl in Hstop.
  - destruct thread as [[| | | |why|e]|]; simpl in Hstop; try discriminate Hstop.
    inversion Hstop; subst. repeat split; eauto.
  - inversion Hstop; subst. repeat split; congruence.
Qed.

(** A [stop()] that returns on a started coordinator has disconnected
    the handle it held, set the shutdown flag, joined the heartbeat
    thread if there was one (which had left its loop), and cleared the
    thread handle, the backend handle and [started]; the backend was
    called once, to stop. *)
Theorem stop_success (env : backend_reply) (thread : option loop_pc)
  (c c' : Coordinator) (t : list event) :
  started c = true ->
  stop env thread c = (StopReturned, c', t) ->
  exists h,
    coordinator c = Some h
    /\ t = [EvBackendStop h]
    /\ c' = mkCoordinator None (agent_id c) false (prefix c) None (Some true)
    /\ (_ev c <> None -> exists why, thread = Some (Exited why)).
Proof. exact (stop_returns env thread c c' t). Qed.

Lemma stop_success_witness :
  exists h,
    coordinator (sys_self example_system) = Some h
    /\ snd (stop reply_ok (Some (Exited ByShutdown)) (sys_self example_system))
       = [EvBackendStop h]
    /\ state_of (stop reply_ok (Some (Exited ByShutdown)) (sys_self example_system))
       = mkCoordinator None (agent_id (sys_self example_system)) false
           (prefix (sys_self example_system)) None (Some true)
    /\ (_ev (sys_self example_system) <> None ->
        exists why, Some (Exited ByShutdown) = Some (Exited why)).
Proof.
  apply (stop_success reply_ok (Some (Exited ByShutdown)) (sys_self example_system)).
  - reflexivity.
  - reflexivity.
Defined.

(** After a [stop()] that returned on a started coordinator, the
    coordinator is out of service: another [stop()] does nothing at
    all, and [get_lock] fails with [LockCreationFailed] for every name
    that can be encoded, without calling the backend. *)
Theorem stop_then_unavailable (env env' : backend_reply)
  (thread thread' : option loop_pc) (c c' : Coordinator) (t : list event)
  (name : str) :
  started c = true ->
  stop env thread c = (StopReturned, c', t) ->
  is_ascii (prefix c ++ name) = true ->
  stop env' thread' c' = (StopReturned, c', [])
  /\ exists msg, get_lock c' name = (Raise (LockCreationFailed msg), []).
Proof.
  intros Hs Hstop Hascii.
  destruct (stop_returns env thread c c' t Hs Hstop) as (h & _ & _ & -> & _).
  split; [reflexivity|].
  destruct (encode_ascii_some _ Hascii) as [bs Hbs].
  unfold get_lock. simpl. rewrite Hbs. eauto.
Qed.

Lemma stop_then_unavailable_witness :
  stop reply_down (Some AtSleep) (sys_self example_stopped)
  = (StopReturned, sys_self example_stopped, [])
  /\ exists msg,
       get_lock (sys_self example_stopped) (ustr "volume-17")
       = (Raise (LockCreationFailed msg), []).
Proof.
  apply (stop_then_unavailable reply_ok reply_down (Some (Exited ByShutdown))
           (Some AtSleep) (sys_self example_system) (sys_self example_stopped)
           [EvBackendStop example_handle] (ustr "volume-17")).
  - reflexivity.
  - vm_compute. reflexivity.
  - reflexivity.
Defined.

(** A [stop()] that raises has cleared nothing: the coordinator still
    holds its handle and is still marked started.  Either nothing was
    written at all (the backend refused to stop, or an attribute was
    missing), or the backend was stopped, the shutdown flag was set, and
    the failure is the one the heartbeat thread died of. *)
Theorem stop_failure (env : backend_reply) (thread : option loop_pc)
  (c c' : Coordinator) (e : exn) (t : list event) :
  stop env thread c = (StopRaised e, c', t) ->
  started c = true
  /\ (c' = c
      \/ (c' = set_dead (Some true) c
          /\ thread = Some (Crashed e)
          /\ reply_stop env = Ret tt))
  /\ (forall e', reply_stop env = Raise e' -> coordinator c <> None ->
       e = e' /\ c' = c).
Proof.
  intros Hstop. unfold stop in Hstop. simpl in Hstop.
  destruct (started c) eqn:Hs; simpl in Hstop; [|discriminate Hstop].
  split; [reflexivity|].
  destruct (coordinator c) as [h|] eqn:Hh; simpl in Hstop.
  - destruct (reply_stop env) as [[]|e1]; simpl in Hstop.
    + destruct (_dead c) as [d|] eqn:Hd; simpl in Hstop.
      * destruct (_ev c) as [ev|] eqn:Hev; simpl in Hstop.
        -- destruct thread as [[| | | |why|e2]|]; simpl in Hstop;
             try discriminate Hstop.
           inversion Hstop; subst. split; [right; auto|].
           intros e' He'. discriminate He'.
        -- discriminate Hstop.
      * inversion Hstop; subst. split; [left; reflexivity|].
        intros e' He'. discriminate He'.
    + inversion Hstop; subst. split; [left; reflexivity|].
      intros e' He' _. inversion He'; auto.
  - inversion Hstop; subst. split; [left; reflexivity|].
    intros e' _ Hc. congruence.
Qed.

Lemma stop_failure_witness :
  stop (mkReply (Ret true) (Ret tt) (Ret tt) (Raise ToozError) (1 # 2))
    (Some AtSleep) (sys_self example_system)
  = (StopRaised ToozError, sys_self example_system, [EvBackendStop example_handle])
  /\ started (sys_self example_system) = true.
Proof.
  split; [reflexivity|].
  apply (stop_failure (mkReply (Ret true) (Ret tt) (Ret tt) (Raise ToozError) (1 # 2))
           (Some AtSleep) (sys_self example_system) (sys_self example_system)
           ToozError [EvBackendStop example_handle]).
  reflexivity.
Defined.

(** A coordinator that was stopped can be started again: the new
    [start()] connects under the same member id as the first one and
    creates a fresh, unset shutdown event. *)
Theorem restart_after_stop (conf : config) (env1 env2 env3 : backend_reply)
  (thread : option loop_pc) (c0 c1 c2 c3 : Coordinator)
  (t1 t2 t3 : list event) :
  started c0 = false ->
  start conf env1 c0 = (Ret tt, c1, t1) ->
  stop env2 thread c1 = (StopReturned, c2, t2) ->
  start conf env3 c2 = (Ret tt, c3, t3) ->
  exists member beating1 beating3,
    coordinator c1 = Some (mkHandle member beating1)
    /\ coordinator c3 = Some (mkHandle member beating3)
    /\ started c3 = true
    /\ _dead c2 = Some true
    /\ _dead c3 = Some false
    /\ In (EvGetCoordinator (cfg_backend_url conf) member) t3.
Proof.
  intros Hs0 Hstart1 Hstop Hstart3.
  destruct (start_returns conf env1 c0 c1 t1 Hs0 Hstart1)
    as (m & b1 & Hm & _ & Hh1 & Hs1 & _ & _ & Hp1 & Ha1 & _).
  destruct (stop_returns env2 thread c1 c2 t2 Hs1 Hstop) as (h & _ & _ & -> & _).
  destruct (start_returns conf env3
              (mkCoordinator None (agent_id c1) false (prefix c1) None (Some true))
              c3 t3 eq_refl Hstart3)
    as (m3 & b3 & Hm3 & _ & Hh3 & Hs3 & Hd3 & _ & _ & _ & Ht3).
  simpl in Hm3. rewrite Hp1, Ha1, Hm in Hm3. inversion Hm3; subst m3.
  exists m, b1, b3. repeat split; auto.
  rewrite Ht3. left. reflexivity.
Qed.

Lemma restart_after_stop_witness :
  exists member beating1 beating3,
    coordinator (sys_self example_system) = Some (mkHandle member beating1)
    /\ coordinator (state_of (start example_conf reply_no_beating
                                (sys_self example_stopped)))
       = Some (mkHandle member beating3)
    /\ started (state_of (start example_conf reply_no_beating
                            (sys_self example_stopped))) = true
    /\ _dead (sys_self example_stopped) = Some true
    /\ _dead (state_of (start example_conf reply_no_beating
                          (sys_self example_stopped))) = Some false
    /\ In (EvGetCoordinator (cfg_backend_url example_conf) member)
         (snd (start example_conf reply_no_beating
                 (sys_self example_stopped))).
Proof.
  apply (restart_after_stop example_conf reply_ok reply_ok reply_no_beating
           (Some (Exited ByShutdown)) example_coordinator
           (sys_self example_system) (sys_self example_stopped)
           (state_of (start example_conf reply_no_beating
                        (sys_self example_stopped)))
           (sys_trace example_system) [EvBackendStop example_handle]
           (snd (start example_conf reply_no_beating
                   (sys_self example_stopped)))).
  - reflexivity.
  - reflexivity.
  - vm_compute. reflexivity.
  - vm_compute. reflexivity.
Defined.

(** ** The member identifier *)

Lemma member_is_log (m : list byte) (r : log_record) : member_is m (EvLog r).
Proof. exact I. Qed.

Ltac members_done Hh :=
  repeat split; auto; repeat constructor; auto;
  try (let h0 := fresh "h" in let H0 := fresh "H" in
       intros h0 H0; first [apply Hh; congruence
                           |simpl in H0; inversion H0; reflexivity]);
  try (apply Hh; congruence).

Lemma dead_wait_cases (timeout : Q) (c : Coordinator) :
  (exists flag, _dead c = Some flag
                /\ dead_wait timeout c = (Ret flag, c, [EvDeadWait timeout]))
  \/ (exists e, dead_wait timeout c = (Raise e, c, [])).
Proof.
  destruct (_dead c) as [flag|] eqn:Hd.
  - left. exists flag. split; [reflexivity|]. apply dead_wait_run. exact Hd.
  - right. unfold dead_wait. run_method. rewrite Hd. eauto.
Qed.

Lemma _heartbeat_unheld (env : backend_reply) (c : Coordinator) :
  coordinator c = None ->
  _heartbeat env c = (Raise (AttributeError (ustr "heartbeat")), c, []).
Proof.
  intros Hh. unfold _heartbeat. run_method. rewrite Hh. reflexivity.
Qed.

Lemma heartbeat_step_members (conf : config) (env : backend_reply)
  (pc pc' : loop_pc) (c c' : Coordinator) (t : list event) (m : list byte) :
  encode_ascii (prefix c ++ agent_id c) = Some m ->
  (forall h, coordinator c = Some h -> h_member h = m) ->
  heartbeat_step conf env pc c = (pc', c', t) ->
  prefix c' = prefix c /\ agent_id c' = agent_id c
  /\ (forall h, coordinator c' = Some h -> h_member h = m)
  /\ Forall (member_is m) t.
Proof.
  intros Hm Hh Hstep.
  destruct pc as [| | |[attempt backoff|attempt backoff]|why|e]; simpl in Hstep.
  - destruct (coordinator c) as [h|] eqn:Eh;
      [destruct (_dead c) as [[|]|]|];
      inversion Hstep; subst; members_done Hh.
  - destruct (coordinator c) as [h|] eqn:Eh.
    + rewrite (_heartbeat_run env c h Eh) in Hstep.
      assert (Hb : member_is m (EvBackendHeartbeat h)) by (apply Hh; reflexivity).
      destruct (reply_heartbeat env) as [[]|e];
        [|destruct (is_ToozConnectionError e) eqn:Hc;
          [|destruct (is_ToozError e)]];
        simpl in Hstep; rewrite ?Hc in Hstep;
        inversion Hstep; subst; members_done Hh.
    + rewrite (_heartbeat_unheld env c Eh) in Hstep. simpl in Hstep.
      inversion Hstep; subst; members_done Hh.
  - destruct (dead_wait_cases (cfg_heartbeat conf) c)
      as [(flag & _ & Hw)|(e & Hw)];
      rewrite Hw in Hstep; inversion Hstep; subst; members_done Hh.
  - rewrite (_start_run conf env c m Hm) in Hstep.
    destruct (reply_get_coordinator env) as [beating|e]; cbv zeta in Hstep.
    + destruct (reply_start env) as [[]|e];
        [|destruct (is_ToozError e)];
        inversion Hstep; subst; members_done Hh.
    + destruct (is_ToozError e); inversion Hstep; subst; members_done Hh.
  - destruct (dead_wait_cases backoff c) as [(flag & _ & Hw)|(e & Hw)];
      rewrite Hw in Hstep; inversion Hstep; subst; members_done Hh.
  - inversion Hstep; subst; members_done Hh.
  - inversion Hstep; subst; members_done Hh.
Qed.

Lemma stop_step_members (env : backend_reply) (thread : option loop_pc)
  (pc pc' : stop_pc) (c c' : Coordinator) (t : list event) (m : list byte) :
  (forall h, coordinator c = Some h -> h_member h = m) ->
  stop_step env thread pc c = Some (pc', c', t) ->
  prefix c' = prefix c /\ agent_id c' = agent_id c
  /\ (forall h, coordinator c' = Some h -> h_member h = m)
  /\ Forall (member_is m) t.
Proof.
  intros Hh Hstep. destruct pc; simpl in Hstep.
  - destruct (started c); [|inversion Hstep; subst; members_done Hh].
    destruct (coordinator c) as [h|] eqn:Eh; [destruct (reply_stop env)|];
      inversion Hstep; subst; members_done Hh.
  - destruct (_dead c); inversion Hstep; subst; simpl; members_done Hh.
  - destruct (_ev c); [destruct (join thread) as [[[]|e]|]|];
      inversion Hstep; subst; members_done Hh.
  - inversion Hstep; subst; simpl; members_done Hh.
  - inversion Hstep; subst; simpl; members_done Hh.
  - inversion Hstep; subst; simpl; members_done Hh.
  - discriminate Hstep.
  - discriminate Hstep.
Qed.

Lemma sys_run_members (conf : config) (acts : list action) (s s' : system)
  (m : list byte) :
  encode_ascii (prefix (sys_self s) ++ agent_id (sys_self s)) = Some m ->
  (forall h, coordinator (sys_self s) = Some h -> h_member h = m) ->
  Forall (member_is m) (sys_trace s) ->
  sys_run conf acts s = Some s' ->
  prefix (sys_self s') = prefix (sys_self s)
  /\ agent_id (sys_self s') = agent_id (sys_self s)
  /\ Forall (member_is m) (sys_trace s').
Proof.
  revert s. induction acts as [|a acts IH]; intros s Hm Hh Ht Hrun;
    simpl in Hrun.
  - inversion Hrun; subst; auto.
  - destruct (sys_step conf a s) as [s1|] eqn:Hstep; [|discriminate Hrun].
    assert (H1 : prefix (sys_self s1) = prefix (sys_self s)
                 /\ agent_id (sys_self s1) = agent_id (sys_self s)
                 /\ (forall h, coordinator (sys_self s1) = Some h -> h_member h = m)
                 /\ Forall (member_is m) (sys_trace s1)).
    { destruct s as [c loop spc tr]; simpl in *.
      destruct a as [env|env]; simpl in Hstep.
      - destruct loop as [pc|]; [|discriminate Hstep].
        destruct (heartbeat_step conf env pc c) as [[pc' c'] t] eqn:Hhb.
        inversion Hstep; subst; simpl.
        destruct (heartbeat_step_members conf env pc pc' c c' t m Hm Hh Hhb)
          as (Hp & Ha & Hh' & Ht').
        repeat split; auto. apply Forall_app; auto.
      - destruct (stop_step env loop spc c) as [[[spc' c'] t]|] eqn:Hst;
          [|discriminate Hstep].
        inversion Hstep; subst; simpl.
        destruct (stop_step_members env loop spc spc' c c' t m Hh Hst)
          as (Hp & Ha & Hh' & Ht').
        repeat split; auto. apply Forall_app; auto. }
    destruct H1 as (Hp & Ha & Hh1 & Ht1).
    destruct (IH s1) as (Hp' & Ha' & Ht'); auto; try congruence.
    repeat split; congruence || auto.
Qed.

(** The member identifier is fixed at construction: from [start()] on,
    through every heartbeat, reconnection attempt and [stop()], the
    prefix and the agent id are never written, and every call to the
    backend (creating, starting, beating and stopping a handle) is made
    under the one member id that encodes prefix followed by agent id. *)
Theorem member_id_constant (conf : config) (env : backend_reply)
  (c : Coordinator) (s0 s : system) (acts : list action) :
  started c = false ->
  boot conf env c = Some s0 ->
  sys_run conf acts s0 = Some s ->
  exists member,
    encode_ascii (prefix c ++ agent_id c) = Some member
    /\ prefix (sys_self s) = prefix c
    /\ agent_id (sys_self s) = agent_id c
    /\ Forall (member_is member) (sys_trace s).
Proof.
  intros Hs Hboot Hrun. unfold boot in Hboot.
  destruct (start conf env c) as [[[[]|e] c1] t1] eqn:Hstart; [|discriminate Hboot].
  inversion Hboot; subst s0; clear Hboot.
  destruct (start_returns conf env c c1 t1 Hs Hstart)
    as (m & beating & Hm & _ & Hh1 & _ & _ & _ & Hp & Ha & Ht1).
  assert (H1 : encode_ascii (prefix c1 ++ agent_id c1) = Some m)
    by (rewrite Hp, Ha; exact Hm).
  assert (H2 : forall h, coordinator c1 = Some h -> h_member h = m).
  { intros h0 Hh0. rewrite Hh1 in Hh0. inversion Hh0; reflexivity. }
  assert (H3 : Forall (member_is m) t1).
  { rewrite Ht1. destruct beating; simpl; repeat constructor. }
  destruct (sys_run_members conf acts
              (mkSystem c1 (match _ev c1 with
                            | Some _ => Some AtTest
                            | None => None
                            end) StopEntry t1) s m H1 H2 H3 Hrun)
    as (Hp' & Ha' & Ht').
  simpl in Hp', Ha'. exists m.
  split; [exact Hm|]. split; [congruence|]. split; [congruence|exact Ht'].
Qed.

Lemma member_id_constant_witness :
  exists member,
    encode_ascii (prefix example_coordinator ++ agent_id example_coordinator)
    = Some member
    /\ prefix (sys_self example_stopped) = prefix example_coordinator
    /\ agent_id (sys_self example_stopped) = agent_id example_coordinator
    /\ Forall (member_is member) (sys_trace example_stopped).
Proof.
  apply (member_id_constant example_conf reply_ok example_coordinator
           example_system example_stopped example_life).
  - reflexivity.
  - vm_compute. reflexivity.
  - vm_compute. reflexivity.
Defined.

(** ** Heartbeats after the shutdown flag is set *)

Lemma count_heartbeats_app (t1 t2 : list event) :
  count_heartbeats (t1 ++ t2) = count_heartbeats t1 + count_heartbeats t2.
Proof.
  unfold count_heartbeats. rewrite List.filter_app, List.length_app. reflexivity.
Qed.

Lemma heartbeat_step_quiet (conf : config) (env : backend_reply)
  (pc pc' : loop_pc) (c c' : Coordinator) (t : list event) :
  _dead c = Some true ->
  heartbeat_step conf env pc c = (pc', c', t) ->
  _dead c' = Some true
  /\ heartbeat_due (Some pc') = 0
  /\ count_heartbeats t <= heartbeat_due (Some pc).
Proof.
  intros Hd Hstep.
  assert (Hd' : _dead c' = Some true).
  { destruct (heartbeat_step_frame conf env pc pc' c c' t Hstep)
      as [[->|[h ->]] _]; exact Hd. }
  split; [exact Hd'|].
  destruct pc as [| | |[attempt backoff|attempt backoff]|why|e]; simpl in Hstep.
  - rewrite Hd in Hstep. destruct (coordinator c);
      inversion Hstep; subst; simpl; auto.
  - destruct (coordinator c) as [h|] eqn:Eh.
    + rewrite (_heartbeat_run env c h Eh) in Hstep.
      destruct (reply_heartbeat env) as [[]|e];
        [|destruct (is_ToozConnectionError e) eqn:Hc;
          [|destruct (is_ToozError e)]];
        simpl in Hstep; rewrite ?Hc in Hstep;
        inversion Hstep; subst; simpl; auto.
    + rewrite (_heartbeat_unheld env c Eh) in Hstep. simpl in Hstep.
      inversion Hstep; subst; simpl; auto.
  - rewrite (dead_wait_run _ c true Hd) in Hstep.
    inversion Hstep; subst; simpl; auto.
  - destruct (encode_ascii (prefix c ++ agent_id c)) as [m|] eqn:Hm.
    + rewrite (_start_run conf env c m Hm) in Hstep.
      destruct (reply_get_coordinator env) as [beating|e]; cbv zeta in Hstep.
      * destruct (reply_start env) as [[]|e];
          [|destruct (is_ToozError e)];
          inversion Hstep; subst; simpl; auto.
      * destruct (is_ToozError e); inversion Hstep; subst; simpl; auto.
    + rewrite (_start_unencodable conf env c Hm) in Hstep.
      inversion Hstep; subst; simpl; auto.
  - rewrite (dead_wait_run _ c true Hd) in Hstep.
    inversion Hstep; subst; simpl; auto.
  - inversion Hstep; subst; simpl; auto.
  - inversion Hstep; subst; simpl; auto.
Qed.

Lemma stop_step_quiet (env : backend_reply) (thread : option loop_pc)
  (pc pc' : stop_pc) (c c' : Coordinator) (t : list event) :
  _dead c = Some true ->
  stop_step env thread pc c = Some (pc', c', t) ->
  _dead c' = Some true /\ count_heartbeats t = 0.
Proof.
  intros Hd Hstep. destruct pc; simpl in Hstep.
  - destruct (started c); [|inversion Hstep; subst; auto].
    destruct (coordinator c); [destruct (reply_stop env)|];
      inversion Hstep; subst; auto.
  - rewrite Hd in Hstep. inversion Hstep; subst; auto.
  - destruct (_ev c); [destruct (join thread) as [[[]|e]|]|];
      inversion Hstep; subst; auto.
  - inversion Hstep; subst; auto.
  - inversion Hstep; subst; auto.
  - inversion Hstep; subst; auto.
  - discriminate Hstep.
  - discriminate Hstep.
Qed.

(** Once the shutdown flag is set it stays set, and at most one more
    heartbeat is ever sent: the one the heartbeat thread was about to
    send, if it had already passed the test of its loop.  This holds for
    every schedule of the two threads and every reply of the backend. *)
Theorem one_heartbeat_after_shutdown (conf : config) (acts : list action)
  (s s' : system) :
  _dead (sys_self s) = Some true ->
  sys_run conf acts s = Some s' ->
  _dead (sys_self s') = Some true
  /\ count_heartbeats (sys_trace s') + heartbeat_due (sys_loop s')
     <= count_heartbeats (sys_trace s) + heartbeat_due (sys_loop s).
Proof.
  revert s. induction acts as [|a acts IH]; intros s Hd Hrun; simpl in Hrun.
  - inversion Hrun; subst. split; [exact Hd|apply Nat.le_refl].
  - destruct (sys_step conf a s) as [s1|] eqn:Hstep; [|discriminate Hrun].
    assert (H1 : _dead (sys_self s1) = Some true
                 /\ count_heartbeats (sys_trace s1) + heartbeat_due (sys_loop s1)
                    <= count_heartbeats (sys_trace s) + heartbeat_due (sys_loop s)).
    { destruct s as [c loop spc tr]; cbn [sys_self sys_trace sys_loop] in *.
      destruct a as [env|env]; simpl in Hstep.
      - destruct loop as [pc|]; [|discriminate Hstep].
        destruct (heartbeat_step conf env pc c) as [[pc' c'] t] eqn:Hhb.
        inversion Hstep; subst; cbn [sys_self sys_trace sys_loop].
        destruct (heartbeat_step_quiet conf env pc pc' c c' t Hd Hhb)
          as (Hd' & Hdue & Hcount).
        split; [exact Hd'|]. rewrite count_heartbeats_app, Hdue. lia.
      - destruct (stop_step env loop spc c) as [[[spc' c'] t]|] eqn:Hst;
          [|discriminate Hstep].
        inversion Hstep; subst; cbn [sys_self sys_trace sys_loop].
        destruct (stop_step_quiet env loop spc spc' c c' t Hd Hst) as [Hd' Ht].
        split; [exact Hd'|]. rewrite count_heartbeats_app, Ht. lia. }
    destruct H1 as [Hd1 Hle1].
    destruct (IH s1 Hd1 Hrun) as [Hd' Hle']. split; [exact Hd'|lia].
Qed.

Lemma one_heartbeat_after_shutdown_witness :
  _dead (sys_self example_quiet) = Some true
  /\ count_heartbeats (sys_trace example_quiet)
     + heartbeat_due (sys_loop example_quiet)
     <= count_heartbeats (sys_trace example_flagged)
        + heartbeat_due (sys_loop example_flagged).
Proof.
  apply (one_heartbeat_after_shutdown example_conf
           [LoopStep reply_ok; LoopStep reply_ok; LoopStep reply_ok; LoopStep reply_ok]
           example_flagged example_quiet).
  - reflexivity.
  - vm_compute. reflexivity.
Defined.

(** ** Cycles of the heartbeat loop *)

Lemma waits_app (t1 t2 : list event) : waits (t1 ++ t2) = waits t1 ++ waits t2.
Proof.
  induction t1 as [|[] t1 IH]; simpl; rewrite ?IH; reflexivity.
Qed.



(** While the shutdown flag is unset and the heartbeats succeed or fail
    with a backend error other than a connection error, the loop goes
    round: each cycle sends exactly one heartbeat to the handle held and
    then waits the configured heartbeat interval, a failed heartbeat
    included; the coordinator is not written and no reconnection is
    attempted. *)
Theorem heartbeat_cycles (conf : config) (envs : list backend_reply)
  (c : Coordinator) (h : handle) :
  coordinator c = Some h ->
  _dead c = Some false ->
  Forall (fun env => heartbeat_survivable env = true) envs ->
  exists t,
    heartbeat_run conf (cycle_replies envs) AtTest c [] = (AtTest, c, t)
    /\ List.filter is_heartbeat t = repeat (EvBackendHeartbeat h) (length envs)
    /\ waits t = repeat (cfg_heartbeat conf) (length envs)
    /\ List.filter is_connect t = [].
Proof.
  intros Hh Hd Henvs. induction Henvs as [|env envs Henv _ IH].
  - exists []. repeat split; reflexivity.
  - destruct IH as (t & Hrun & Hbeats & Hwaits & Hconn).
    cbn [cycle_replies heartbeat_run heartbeat_step]. rewrite Hh, Hd.
    cbn [heartbeat_run heartbeat_step app].
    rewrite (_heartbeat_run env c h Hh).
    unfold heartbeat_survivable in Henv.
    assert (Hbeat : exists logs,
              (match reply_heartbeat env with
               | Ret _ => (Ret true, c, [EvBackendHeartbeat h])
               | Raise e =>
                   if is_ToozConnectionError e
                   then (Raise e, c,
                         [EvBackendHeartbeat h; EvLog LogHeartbeatConnectionError])
                   else if is_ToozError e
                        then (Ret false, c,
                              [EvBackendHeartbeat h; EvLog LogHeartbeatError])
                        else (Raise e, c, [EvBackendHeartbeat h])
               end) = (Ret (negb (bool_decide (logs <> []))), c,
                       EvBackendHeartbeat h :: map EvLog logs)).
    { destruct (reply_heartbeat env) as [[]|e].
      - exists []. reflexivity.
      - apply andb_true_iff in Henv as [Ht Hc]. apply negb_true_iff in Hc.
        rewrite Hc, Ht. exists [LogHeartbeatError]. reflexivity. }
    destruct Hbeat as [logs ->].
    cbn [heartbeat_run heartbeat_step]. rewrite (dead_wait_run _ c false Hd).
    rewrite heartbeat_run_trace, Hrun.
    eexists. split; [reflexivity|].
    assert (Hlogs : forall (f : event -> bool),
              (forall r, f (EvLog r) = false) ->
              List.filter f (map EvLog logs) = []).
    { intros f Hf. induction logs as [|r logs IHl]; simpl; [reflexivity|].
      rewrite Hf. exact IHl. }
    repeat split.
    + simpl. rewrite !List.filter_app, (Hlogs is_heartbeat) by reflexivity.
      simpl. rewrite Hbeats. reflexivity.
    + simpl. rewrite !waits_app.
      assert (Hw : waits (map EvLog logs) = []).
      { clear. induction logs; simpl; auto. }
      rewrite Hw. simpl. rewrite Hwaits. reflexivity.
    + simpl. rewrite !List.filter_app, (Hlogs is_connect) by reflexivity.
      simpl. exact Hconn.
Qed.

Lemma heartbeat_cycles_witness :
  exists t,
    heartbeat_run example_conf (cycle_replies [reply_ok; reply_refused; reply_ok])
      AtTest (sys_self example_system) [] = (AtTest, sys_self example_system, t)
    /\ List.filter is_heartbeat t = repeat (EvBackendHeartbeat example_handle) 3
    /\ waits t = repeat (cfg_heartbeat example_conf) 3
    /\ List.filter is_connect t = [].
Proof.
  apply (heartbeat_cycles example_conf [reply_ok; reply_refused; reply_ok]
           (sys_self example_system) example_handle).
  - reflexivity.
  - reflexivity.
  - repeat constructor.
Defined.

(** ** Runs of the reconnection procedure *)





(** When a connection attempt of [_reconnect] succeeds, the procedure
    returns at once: the coordinator holds the handle just obtained,
    created under the same member id, the success is logged, and, the
    shutdown flag being unset, the next heartbeat is sent to the new
    handle. *)
Theorem reconnect_resumes (conf : config) (env env2 env3 : backend_reply)
  (c : Coordinator) (m : list byte) (beating : bool)
  (attempt : positive) (backoff : Q) :
  encode_ascii (prefix c ++ agent_id c) = Some m ->
  _dead c = Some false ->
  reply_get_coordinator env = Ret beating ->
  reply_start env = Ret tt ->
  reply_heartbeat env3 = Ret tt ->
  heartbeat_run conf [env; env2; env3]
    (InReconnect (RcConnect attempt backoff)) c []
  = (AtSleep, set_coordinator (Some (mkHandle m beating)) c,
     [EvGetCoordinator (cfg_backend_url conf) m;
      EvBackendStart (mkHandle m beating);
      EvLog LogReconnected;
      EvBackendHeartbeat (mkHandle m beating)]).
Proof.
  intros Hm Hd Hgc Hst Hhb.
  cbn [heartbeat_run heartbeat_step _reconnect_step].
  rewrite (_start_run conf env c m Hm), Hgc. cbv zeta. rewrite Hst.
  cbn [heartbeat_run heartbeat_step app]. simpl coordinator. simpl _dead.
  rewrite Hd. cbn [heartbeat_run heartbeat_step].
  rewrite (_heartbeat_run env3
             (set_coordinator (Some (mkHandle m beating)) c)
             (mkHandle m beating) eq_refl), Hhb.
  reflexivity.
Qed.

Lemma reconnect_resumes_witness :
  heartbeat_run example_conf [reply_ok; reply_down; reply_ok]
    (InReconnect (RcConnect 4 7)) (sys_self example_system) []
  = (AtSleep,
     set_coordinator (Some (mkHandle example_member true)) (sys_self example_system),
     [EvGetCoordinator (cfg_backend_url example_conf) example_member;
      EvBackendStart (mkHandle example_member true);
      EvLog LogReconnected;
      EvBackendHeartbeat (mkHandle example_member true)]).
Proof.
  apply (reconnect_resumes example_conf reply_ok reply_down reply_ok
           (sys_self example_system) example_member true 4 7);
    reflexivity.
Defined.

(** ** Growth of the backoff *)





(** ** After a failed [start] *)

(** When the backend hands out a handle but the handle fails to start,
    [start()] raises and [started] stays false, yet the handle stays in
    place: [stop()] then has nothing to do and leaves it there, and
    [get_lock] keeps handing out locks of the backend that never
    started. *)
Theorem get_lock_after_failed_start (conf : config) (env env' : backend_reply)
  (thread : option loop_pc) (c : Coordinator) (name : str) :
  started c = false ->
  is_ascii (prefix c ++ agent_id c) = true ->
  is_ascii (prefix c ++ name) = true ->
  handle_start_fails env = true ->
  exists e c' t member beating lock_name,
    start conf env c = (Raise e, c', t)
    /\ started c' = false
    /\ coordinator c' = Some (mkHandle member beating)
    /\ stop env' thread c' = (StopReturned, c', [])
    /\ get_lock c' name
       = (Ret (mkLock (mkHandle member beating) lock_name),
          [EvBackendGetLock (mkHandle member beating) lock_name]).
Proof.
  intros Hs Hmember Hname Hfails.
  destruct (encode_ascii_some _ Hmember) as [m Hm].
  destruct (encode_ascii_some _ Hname) as [bs Hbs].
  unfold handle_start_fails in Hfails.
  rewrite (start_run conf env c Hs). cbv zeta.
  rewrite (_start_run conf env (set_dead (Some false) c) m Hm).
  destruct (reply_get_coordinator env) as [beating|e]; [|discriminate Hfails].
  destruct (reply_start env) as [[]|e]; [discriminate Hfails|].
  cbv zeta. do 3 eexists. exists m, beating, bs.
  split; [reflexivity|]. simpl.
  split; [exact Hs|]. split; [reflexivity|]. split.
  - unfold stop. simpl. rewrite Hs. reflexivity.
  - unfold get_lock. simpl. rewrite Hbs. reflexivity.
Qed.

Lemma get_lock_after_failed_start_witness :
  exists e c' t member beating lock_name,
    start example_conf reply_refused example_coordinator = (Raise e, c', t)
    /\ started c' = false
    /\ coordinator c' = Some (mkHandle member beating)
    /\ stop reply_ok None c' = (StopReturned, c', [])
    /\ get_lock c' (ustr "volume-17")
       = (Ret (mkLock (mkHandle member beating) lock_name),
          [EvBackendGetLock (mkHandle member beating) lock_name]).
Proof.
  apply (get_lock_after_failed_start example_conf reply_refused reply_ok None
           example_coordinator (ustr "volume-17")); reflexivity.
Defined.

(** ** Outcomes of a guarded call *)

Section SynchronizedOutcomes.
Context {value : Type} `{PyObject value}.

(** A guarded call ends in one of three ways.  It raises before any lock
    is acquired, having logged nothing and called neither the backend
    nor the operation.  Or the lock is refused: it raises
    [LockAcquireFailed] and logs a release record without a held
    duration.  Or the lock is granted: it yields what the operation
    yields, logs the wait as the time from before the acquisition to
    after it, and the held duration as the time from then to after the
    release.  The operation is called, and the lock released, in the
    last case only, once each. *)
Theorem synchronized_outcomes (lock_name : str) (b : blocking)
  (c : Coordinator) (env : call_env) (f : operation) (a : list value)
  (k : gmap str value) (r : result value) (t : list event) :
  _synchronized lock_name b c env f a k = (r, t) ->
  (t = [] /\ exists e, r = Raise e)
  \/ (exists l,
        granted env = false
        /\ r = Raise LockAcquireFailed
        /\ t = [EvBackendGetLock (lock_via l) (name l);
                EvAcquire l b false;
                EvLog (LogReleased (name l) (op_name f) None)])
  \/ (exists l,
        granted env = true
        /\ r = op_body f a k
        /\ t = [EvBackendGetLock (lock_via l) (name l);
                EvAcquire l b true;
                EvLog (LogAcquired (name l) (op_name f) (now2 env - now1 env)%Q);
                EvCall (op_name f);
                EvRelease l;
                EvLog (LogReleased (name l) (op_name f)
                         (Some (now3 env - now2 env)%Q))]).
Proof.
  intros Hcall.
  destruct (getcallargs (op_signature f) a k) as [params|e] eqn:Hargs.
  - destruct (format lock_name (<[ustr "f_name" := py_str (op_name f)]> params))
      as [resolved|e] eqn:Hfmt.
    + destruct (get_lock c resolved) as [rl tl] eqn:Hlock.
      destruct (get_lock_cases c resolved rl tl Hlock)
        as [(e & -> & ->)|(h & requested & _ & _ & -> & ->)].
      * unfold _synchronized in Hcall. rewrite Hargs, Hfmt, Hlock in Hcall.
        simpl in Hcall. inversion Hcall; subst. left. eauto.
      * rewrite (_synchronized_run lock_name b c env f a k params resolved
                   (backend_get_lock h requested) Hargs Hfmt Hlock) in Hcall.
        destruct (granted env) eqn:Hg; inversion Hcall; subst.
        -- right. right. exists (backend_get_lock h requested). auto.
        -- right. left. exists (backend_get_lock h requested). auto.
    + unfold _synchronized in Hcall. rewrite Hargs, Hfmt in Hcall.
      inversion Hcall; subst. left. eauto.
  - unfold _synchronized in Hcall. rewrite Hargs in Hcall.
    inversion Hcall; subst. left. eauto.
Qed.

(** A format string without braces formats to itself. *)
Lemma format_plain (s : str) (kwargs : gmap str value) :
  has_brace s = false -> format s kwargs = Ret s.
Proof.
  unfold format. cbn [build_string]. generalize (build_string 1 kwargs).
  intros expand. induction s as [|ch0 s IH]; intros Hs; [reflexivity|].
  simpl in Hs. apply orb_false_iff in Hs as [Hc Hs].
  apply orb_false_iff in Hc as [Ho Hcl].
  cbn [parse_template]. rewrite Ho, Hcl. cbn [render].
  rewrite (IH Hs). reflexivity.
Qed.

(** A lock name without placeholders, as in [@synchronized('mylock')],
    is used as it stands: whatever the operation and its arguments, as
    long as they fit its signature, the lock requested from the backend
    is the one named by the encoded prefix and template. *)
Theorem synchronized_plain_name (lock_name : str) (b : blocking)
  (c : Coordinator) (env : call_env) (f : operation) (a : list value)
  (k : gmap str value) (params : gmap str value) (h : handle)
  (requested : list byte) :
  has_brace lock_name = false ->
  getcallargs (op_signature f) a k = Ret params ->
  coordinator c = Some h ->
  encode_ascii (prefix c ++ lock_name) = Some requested ->
  List.filter is_lock_request (snd (_synchronized lock_name b c env f a k))
  = [EvBackendGetLock h requested].
Proof.
  intros Hplain Hargs Hh Henc.
  assert (Hlock : get_lock c lock_name
                  = (Ret (backend_get_lock h requested),
                     [EvBackendGetLock (lock_via (backend_get_lock h requested))
                        (name (backend_get_lock h requested))])).
  { unfold get_lock. rewrite Henc, Hh. reflexivity. }
  rewrite (_synchronized_run lock_name b c env f a k params lock_name
             (backend_get_lock h requested) Hargs
             (format_plain lock_name _ Hplain) Hlock).
  destruct (granted env); reflexivity.
Qed.


End SynchronizedOutcomes.

Lemma synchronized_outcomes_witness :
  exists l,
    granted (mkCallEnv true 10 11 15) = true
    /\ fst example_call_bar = op_body bar [example_self; example_vol]
                                (<[ustr "snap" := example_snap]> ∅)
    /\ snd example_call_bar
       = [EvBackendGetLock (lock_via l) (name l);
          EvAcquire l (Timeout 5) true;
          EvLog (LogAcquired (name l) (op_name bar) (11 - 10)%Q);
          EvCall (op_name bar);
          EvRelease l;
          EvLog (LogReleased (name l) (op_name bar) (Some (15 - 11)%Q))].
Proof.
  destruct (synchronized_outcomes (ustr "{f_name}-{vol.id}-{snap[name]}")
              (Timeout 5) (sys_self example_system) (mkCallEnv true 10 11 15)
              bar [example_self; example_vol] (<[ustr "snap" := example_snap]> ∅)
              (fst example_call_bar) (snd example_call_bar))
    as [[Hnil _]|[(l & Hg & _)|(l & Hg & Hr & Ht)]].
  - apply surjective_pairing.
  - vm_compute in Hnil. discriminate Hnil.
  - discriminate Hg.
  - exists l. split; [reflexivity|]. split; [exact Hr|exact Ht].
Defined.

Lemma synchronized_plain_name_witness :
  List.filter is_lock_request
    (snd (_synchronized (ustr "mylock") NoBlock (sys_self example_system)
            (mkCallEnv false 10 11 15) bar
            [example_self; example_vol; example_snap] ∅))
  = [EvBackendGetLock example_handle (name (example_lock_of "cinder-mylock"))].
Proof.
  apply (synchronized_plain_name (ustr "mylock") NoBlock (sys_self example_system)
           (mkCallEnv false 10 11 15) bar
           [example_self; example_vol; example_snap] ∅
           (<[ustr "self" := example_self]>
              (<[ustr "vol" := example_vol]> (<[ustr "snap" := example_snap]> ∅)))).
  - reflexivity.
  - vm_compute. reflexivity.
  - reflexivity.
  - reflexivity.
Defined.


(** ** [stop] meeting the heartbeat thread *)

(** When [stop()] is called while the heartbeat thread sleeps between
    two heartbeats, and the backend agrees to stop, [stop()] completes
    as soon as the thread has taken two steps: the wait returns, the
    test of the loop sees the flag, the thread is joined, and the
    coordinator is cleared; no heartbeat is sent meanwhile. *)
Theorem stop_completes_from_sleep (conf : config)
  (env e1 e2 e3 e4 e5 e6 e7 : backend_reply) (c : Coordinator) (h : handle)
  (flag : bool) (ev : greenthread) (tr : list event) :
  started c = true ->
  coordinator c = Some h ->
  _dead c = Some flag ->
  _ev c = Some ev ->
  reply_stop env = Ret tt ->
  sys_run conf
    [StopStep env; StopStep e1; LoopStep e2; LoopStep e3;
     StopStep e4; StopStep e5; StopStep e6; StopStep e7]
    (mkSystem c (Some AtSleep) StopEntry tr)
  = Some (mkSystem
            (mkCoordinator None (agent_id c) false (prefix c) None (Some true))
            (Some (Exited ByShutdown)) StopReturned
            (tr ++ [EvBackendStop h; EvDeadWait (cfg_heartbeat conf)])).
Proof.
  intros Hs Hh Hd Hev Hstop.
  cbn [sys_run sys_step stop_step sys_self sys_loop sys_stop sys_trace].
  rewrite Hs, Hh, Hstop.
  cbn [sys_run sys_step stop_step sys_self sys_loop sys_stop sys_trace].
  rewrite Hd.
  cbn [sys_run sys_step stop_step heartbeat_step sys_self sys_loop sys_stop
         sys_trace].
  rewrite (dead_wait_run (cfg_heartbeat conf) (set_dead (Some true) c) true eq_refl).
  cbn [sys_run sys_step stop_step heartbeat_step sys_self sys_loop sys_stop
         sys_trace].
  simpl coordinator. simpl _dead. rewrite Hh.
  cbn [sys_run sys_step stop_step heartbeat_step sys_self sys_loop sys_stop
         sys_trace].
  simpl _ev. rewrite Hev. simpl.
  rewrite !app_nil_r, <- app_assoc. reflexivity.
Qed.

Lemma stop_completes_from_sleep_witness :
  sys_run example_conf
    [StopStep reply_ok; StopStep reply_ok; LoopStep reply_ok; LoopStep reply_ok;
     StopStep reply_ok; StopStep reply_ok; StopStep reply_ok; StopStep reply_ok]
    (mkSystem (sys_self example_system) (Some AtSleep) StopEntry [])
  = Some (mkSystem
            (mkCoordinator None (agent_id (sys_self example_system)) false
               (prefix (sys_self example_system)) None (Some true))
            (Some (Exited ByShutdown)) StopReturned
            ([] ++ [EvBackendStop example_handle;
                    EvDeadWait (cfg_heartbeat example_conf)])).
Proof.
  apply (stop_completes_from_sleep example_conf reply_ok reply_ok reply_ok
           reply_ok reply_ok reply_ok reply_ok reply_ok
           (sys_self example_system) example_handle false HeartbeatThread []);
    reflexivity.
Defined.

(** When the shutdown flag is set while [_reconnect] waits, and the next
    connection attempt succeeds, the heartbeat thread leaves its loop
    and [stop()] returns; but the handle obtained by that attempt was
    started after [stop()] had stopped the old one, and [stop()] clears
    it without stopping it: the last call to the backend is the start
    of a handle that is never stopped. *)
Theorem stop_drops_reconnected_handle (conf : config)
  (env e1 e2 e3 e4 e5 e6 : backend_reply) (c : Coordinator) (m : list byte)
  (beating : bool) (ev : greenthread) (attempt : positive) (backoff : Q)
  (tr : list event) :
  encode_ascii (prefix c ++ agent_id c) = Some m ->
  _dead c = Some true ->
  _ev c = Some ev ->
  reply_get_coordinator env = Ret beating ->
  reply_start env = Ret tt ->
  sys_run conf
    [LoopStep e1; LoopStep env; LoopStep e2;
     StopStep e3; StopStep e4; StopStep e5; StopStep e6]
    (mkSystem c (Some (InReconnect (RcWait attempt backoff))) StopDeadSet tr)
  = Some (mkSystem
            (mkCoordinator None (agent_id c) false (prefix c) None (Some true))
            (Some (Exited ByShutdown)) StopReturned
            (tr ++ [EvDeadWait backoff;
                    EvGetCoordinator (cfg_backend_url conf) m;
                    EvBackendStart (mkHandle m beating);
                    EvLog LogReconnected])).
Proof.
  intros Hm Hd Hev Hgc Hst.
  cbn [sys_run sys_step heartbeat_step _reconnect_step sys_self sys_loop
         sys_stop sys_trace].
  rewrite (dead_wait_run backoff c true Hd).
  cbn [sys_run sys_step heartbeat_step _reconnect_step sys_self sys_loop
         sys_stop sys_trace].
  rewrite (_start_run conf env c m Hm), Hgc. cbv zeta. rewrite Hst.
  cbn [sys_run sys_step heartbeat_step _reconnect_step sys_self sys_loop
         sys_stop sys_trace].
  simpl coordinator. simpl _dead. rewrite Hd.
  cbn [sys_run sys_step stop_step sys_self sys_loop sys_stop sys_trace].
  simpl _ev. rewrite Hev. simpl.
  rewrite !app_nil_r, <- !app_assoc.
  unfold set_started, set_coordinator, set_ev. simpl. rewrite Hd. reflexivity.
Qed.

Lemma stop_drops_reconnected_handle_witness :
  sys_run example_conf
    [LoopStep reply_down; LoopStep reply_ok; LoopStep reply_down;
     StopStep reply_ok; StopStep reply_ok; StopStep reply_ok; StopStep reply_ok]
    (mkSystem (sys_self example_waiting)
       (Some (InReconnect (RcWait 1 example_backoff))) StopDeadSet [])
  = Some (mkSystem
            (mkCoordinator None (agent_id (sys_self example_waiting)) false
               (prefix (sys_self example_waiting)) None (Some true))
            (Some (Exited ByShutdown)) StopReturned
            ([] ++ [EvDeadWait example_backoff;
                    EvGetCoordinator (cfg_backend_url example_conf) example_member;
                    EvBackendStart (mkHandle example_member true);
                    EvLog LogReconnected])).
Proof.
  apply (stop_drops_reconnected_handle example_conf reply_ok reply_down reply_down
           reply_ok reply_ok reply_ok reply_ok (sys_self example_waiting)
           example_member true HeartbeatThread 1 example_backoff []);
    reflexivity.
Defined.
